(** * Shallow embedding of the Solution Review Pipeline of PythonFreeCourse/LMS

    Sources embedded here:
    - [lms/lmsdb/models.py]: [SolutionState], [Solution.set_state],
      [Solution.start_checking], [Solution.solution_exists],
      [Solution.create_solution], [Solution._base_next_unchecked],
      [Solution.next_unchecked(_of)], [Solution.status],
      [Solution.left_in_exercise], [Notification.send],
      [Notification.read], [Notification.fetch], the
      [on_notification_saved] post-save hook and
      [SolutionExerciseTestExecution.create_execution_result];
    - [lms/lmstests/public/unittests/services.py]: [UnitTestChecker]'s
      [_populate_junit_results], [_handle_test_suite] and
      [_handle_failed_to_execute_tests].

    Database tables are lists of rows in insertion order; primary keys are
    natural numbers handed out by an auto-increment counter; timestamps
    ([datetime.now()]) are natural numbers supplied by the caller. *)

From Stdlib Require Import String Ascii.
From Stdlib Require Import List Arith Bool Lia Permutation Sorted.
Import ListNotations.

(* ------------------------------------------------------------------ *)
(** ** Solution rows and the state machine *)

Inductive SolutionState :=
| CREATED
| IN_CHECKING
| DONE
| OLD_SOLUTION.

Definition SolutionState_eqb (a b : SolutionState) : bool :=
  match a, b with
  | CREATED, CREATED | IN_CHECKING, IN_CHECKING | DONE, DONE
  | OLD_SOLUTION, OLD_SOLUTION => true
  | _, _ => false
  end.

(** [SolutionState.active_solutions()]: (DONE, IN_CHECKING, CREATED);
    [state.in_(...)] is membership in that tuple. *)
Definition active_solutions : list SolutionState := [DONE; IN_CHECKING; CREATED].

Definition is_active (s : SolutionState) : bool :=
  existsb (SolutionState_eqb s) active_solutions.

Record Solution := mkSolution {
  sol_id : nat;
  exercise : nat;
  solver : nat;
  state : SolutionState;
  submission_timestamp : nat;
  json_data_str : string
}.

(** The [solution] table with its auto-increment counter. *)
Record SolutionTable := mkSolutionTable {
  solutions : list Solution;
  next_solution_id : nat
}.

Definition with_state (r : Solution) (s : SolutionState) : Solution :=
  mkSolution (sol_id r) (exercise r) (solver r) s
             (submission_timestamp r) (json_data_str r).

Definition state_of (t : SolutionTable) (id : nat) : option SolutionState :=
  option_map state (find (fun r => sol_id r =? id) (solutions t)).

(** [Solution.set_state]:
    [UPDATE solution SET state = new_state WHERE id = self.id],
    returning [execute() == 1]. *)
Definition set_state (t : SolutionTable) (id : nat) (new_state : SolutionState)
  : SolutionTable * bool :=
  let requested_solution := fun r => sol_id r =? id in
  let updated := length (filter requested_solution (solutions t)) in
  (mkSolutionTable
     (map (fun r => if requested_solution r then with_state r new_state else r)
          (solutions t))
     (next_solution_id t),
   updated =? 1).

(** [Solution.start_checking]. *)
Definition start_checking (t : SolutionTable) (id : nat) : SolutionTable * bool :=
  set_state t id IN_CHECKING.

(** [Solution.solution_exists]:
    [SELECT ... WHERE exercise = e AND solver = u AND json_data_str = s],
    then [.exists()]. *)
Definition solution_exists (t : SolutionTable) (e u : nat) (js : string) : bool :=
  existsb (fun r => (exercise r =? e) && (solver r =? u)
                    && String.eqb (json_data_str r) js)
          (solutions t).

Definition same_pair (e u : nat) (r : Solution) : bool :=
  (exercise r =? e) && (solver r =? u).

(** [Solution.create_solution]: insert the new row (state defaults to
    CREATED), select the other rows of the (exercise, solver) pair and call
    [set_state(OLD_SOLUTION)] on each of them in turn. *)
Definition create_solution (t : SolutionTable) (e u : nat) (now : nat)
  (js : string) : SolutionTable * Solution :=
  let instance := mkSolution (next_solution_id t) e u CREATED now js in
  let t1 := mkSolutionTable (solutions t ++ [instance])
                            (S (next_solution_id t)) in
  let other_solutions :=
    filter (fun r => same_pair e u r && negb (sol_id r =? sol_id instance))
           (solutions t1) in
  let t2 := fold_left
              (fun acc old_solution =>
                 fst (set_state acc (sol_id old_solution) OLD_SOLUTION))
              other_solutions t1 in
  (t2, instance).

(** A sequence of [create_solution] calls for one pair, one
    (timestamp, content) per call. *)
Fixpoint create_solutions (t : SolutionTable) (e u : nat)
  (subs : list (nat * string)) : SolutionTable :=
  match subs with
  | [] => t
  | (now, js) :: rest => create_solutions (fst (create_solution t e u now js)) e u rest
  end.

Definition pair_rows (t : SolutionTable) (e u : nat) : list Solution :=
  filter (same_pair e u) (solutions t).

(** A table as the database keeps it: ids are unique (primary key) and
    below the auto-increment counter. *)
Definition table_wf (t : SolutionTable) : Prop :=
  Forall (fun r => sol_id r < next_solution_id t) (solutions t)
  /\ NoDup (map sol_id (solutions t)).

(* ------------------------------------------------------------------ *)
(** ** Query helpers: LEFT OUTER JOIN and ORDER BY *)

(** [xs LEFT OUTER JOIN ys ON ...]: every row of [xs] paired with each
    matching row, or with NULL when nothing matches. *)
Definition left_join {A B : Type} (xs : list A) (matching : A -> list B)
  : list (A * option B) :=
  flat_map (fun x => match matching x with
                     | [] => [(x, None)]
                     | ys => map (fun y => (x, Some y)) ys
                     end) xs.

(** [ORDER BY]: a stable insertion sort on a boolean "less or equal";
    rows with equal keys keep table order (SQL leaves their order to the
    engine). *)
Fixpoint insert_by {A : Type} (leb : A -> A -> bool) (x : A) (l : list A)
  : list A :=
  match l with
  | [] => [x]
  | y :: l' => if leb x y then x :: y :: l' else y :: insert_by leb x l'
  end.

Fixpoint sort_by {A : Type} (leb : A -> A -> bool) (l : list A) : list A :=
  match l with
  | [] => []
  | x :: l' => insert_by leb x (sort_by leb l')
  end.

Definition count_if {A : Type} (p : A -> bool) (l : list A) : nat :=
  length (filter p l).

(* ------------------------------------------------------------------ *)
(** ** Review Queue Selector *)

Record Comment := mkComment {
  comment_id : nat;
  comment_solution : nat
}.

(** A [SolutionExerciseTestExecution] row; the foreign key to
    [ExerciseTestName] is kept as the test name it points to. *)
Record TestExecution := mkTestExecution {
  execution_id : nat;
  execution_solution : nat;
  exercise_test_name : string;
  user_message : string;
  staff_message : string
}.

(** Lexicographic [ORDER BY comments_count, failures, submission_timestamp]. *)
Definition key3_leb (a b : nat * nat * nat) : bool :=
  let '(a1, a2, a3) := a in
  let '(b1, b2, b3) := b in
  (a1 <? b1) || ((a1 =? b1) && ((a2 <? b2) || ((a2 =? b2) && (a3 <=? b3)))).

Definition key3_lt (a b : nat * nat * nat) : Prop :=
  let '(a1, a2, a3) := a in
  let '(b1, b2, b3) := b in
  a1 < b1 \/ (a1 = b1 /\ (a2 < b2 \/ (a2 = b2 /\ a3 < b3))).

(** One result row of [_base_next_unchecked]:
    (solution, comments_count, failures). *)
Definition QueueRow := (Solution * nat * nat)%type.

Definition queue_key (q : QueueRow) : nat * nat * nat :=
  let '(s, cc, ff) := q in (cc, ff, submission_timestamp s).

(** [Solution._base_next_unchecked], with the extra
    [.where(exercise == exercise_id)] of [next_unchecked_of] when [scope]
    is given:
    [SELECT id, state, COUNT(Comment.id), COUNT(STE.id)
     FROM solution LEFT JOIN comment ON comment.solution = solution.id
                   LEFT JOIN ste ON ste.solution = solution.id
     WHERE state = CREATED GROUP BY solution.id
     ORDER BY comments_count, failures, submission_timestamp]. *)
Definition base_next_unchecked (t : SolutionTable) (comments : list Comment)
  (executions : list TestExecution) (scope : option nat) : list QueueRow :=
  let joined :=
    left_join
      (left_join (solutions t)
                 (fun s => filter (fun c => comment_solution c =? sol_id s) comments))
      (fun sc => filter (fun x => execution_solution x =? sol_id (fst sc)) executions) in
  let selected (s : Solution) :=
    SolutionState_eqb (state s) CREATED
    && match scope with Some e => exercise s =? e | None => true end in
  let rows := filter (fun row => selected (fst (fst row))) joined in
  let grouped :=
    map (fun s =>
           let g := filter (fun row => sol_id (fst (fst row)) =? sol_id s) rows in
           (s,
            count_if (fun row => match snd (fst row) with Some _ => true | None => false end) g,
            count_if (fun row => match snd row with Some _ => true | None => false end) g))
        (filter selected (solutions t)) in
  sort_by (fun a b => key3_leb (queue_key a) (queue_key b)) grouped.

(** [Solution.next_unchecked] / [Solution.next_unchecked_of]: [.get()] takes
    the first row; [DoesNotExist] becomes [None]. *)
Definition next_unchecked_of (t : SolutionTable) (comments : list Comment)
  (executions : list TestExecution) (scope : option nat) : option Solution :=
  match base_next_unchecked t comments executions scope with
  | [] => None
  | (s, _, _) :: _ => Some s
  end.

Definition next_unchecked t comments executions : option Solution :=
  next_unchecked_of t comments executions None.

(** The ranking as the spec words it: number of Comment rows attached to the
    solution, number of TestExecutionResult rows recorded against it, then
    the submission timestamp. *)
Definition spec_queue_key (comments : list Comment)
  (executions : list TestExecution) (s : Solution) : nat * nat * nat :=
  (count_if (fun c => comment_solution c =? sol_id s) comments,
   count_if (fun x => execution_solution x =? sol_id s) executions,
   submission_timestamp s).

(* ------------------------------------------------------------------ *)
(** ** Per-exercise aggregates *)

Record Exercise := mkExercise {
  ex_id : nat;
  subject : string;
  is_archived : bool
}.

Record StatusRow := mkStatusRow {
  status_id : nat;
  status_name : string;
  status_is_archived : bool;
  submitted : nat;
  checked : nat
}.

(** [Case(state, ((DONE, 1),), 0)]. *)
Definition one_if_is_checked (s : Solution) : nat :=
  if SolutionState_eqb (state s) DONE then 1 else 0.

Definition sum_nat (l : list nat) : nat := fold_right Nat.add 0 l.

(** [Solution.status]:
    [SELECT exercise.id, subject, is_archived, COUNT(solution.id),
            SUM(one_if_is_checked)
     FROM exercise LEFT JOIN solution ON solution.exercise = exercise.id
     WHERE solution.state IN active_solutions
     GROUP BY exercise.subject, exercise.id ORDER BY exercise.id].
    A NULL state (no matching solution) fails the WHERE. *)
Definition status (exs : list Exercise) (t : SolutionTable) : list StatusRow :=
  let joined :=
    left_join exs (fun ex => filter (fun s => exercise s =? ex_id ex) (solutions t)) in
  let rows :=
    filter (fun row => match snd row with
                       | Some s => is_active (state s)
                       | None => false
                       end) joined in
  let grouped :=
    flat_map
      (fun ex =>
         let g := filter (fun row => ex_id (fst row) =? ex_id ex) rows in
         let sols := flat_map (fun row => match snd row with
                                          | Some s => [s]
                                          | None => []
                                          end) g in
         match g with
         | [] => []
         | _ => [mkStatusRow (ex_id ex) (subject ex) (is_archived ex)
                             (length sols) (sum_nat (map one_if_is_checked sols))]
         end) exs in
  sort_by (fun a b => status_id a <=? status_id b) grouped.

(** [Solution.left_in_exercise]:
    [SELECT COUNT(id), SUM(one_if_is_checked) FROM solution
     WHERE exercise = e AND state IN active_solutions], then
    [int(checked * 100 / submitted)].  [SUM] over no rows is NULL, and
    [None * 100] raises [TypeError]; [None] is that exception.  For
    non-negative operands [int] of the true division is the floor
    (the operands are far below 2^53). *)
Definition left_in_exercise (t : SolutionTable) (e : nat) : option nat :=
  let rows := filter (fun r => (exercise r =? e) && is_active (state r))
                     (solutions t) in
  let submitted := length rows in
  let checked := match rows with
                 | [] => None
                 | _ => Some (sum_nat (map one_if_is_checked rows))
                 end in
  match checked with
  | None => None
  | Some c => if submitted =? 0 then None else Some (c * 100 / submitted)
  end.

(* ------------------------------------------------------------------ *)
(** ** Notification Store *)

Record Notification := mkNotification {
  notif_id : nat;
  notif_user : nat;
  created : nat;
  kind : nat;
  message : string;
  related_id : option nat;
  action_url : option string;
  viewed : bool
}.

Record NotificationTable := mkNotificationTable {
  notifications : list Notification;
  next_notif_id : nat
}.

Definition MAX_PER_USER : nat := 10.

(** [instance.delete_instance()]: [DELETE ... WHERE id = instance.id]. *)
Definition delete_instance (t : NotificationTable) (id : nat) : NotificationTable :=
  mkNotificationTable (filter (fun r => negb (notif_id r =? id)) (notifications t))
                      (next_notif_id t).

(** [ORDER BY created DESC]. *)
Definition created_desc_leb (a b : Notification) : bool := created b <=? created a.

(** The rows the hook selects:
    [WHERE user = instance.user ORDER BY created DESC OFFSET MAX_PER_USER]. *)
Definition old_notifications (t : NotificationTable) (user : nat) : list Notification :=
  skipn MAX_PER_USER
        (sort_by created_desc_leb
                 (filter (fun r => notif_user r =? user) (notifications t))).

(** The [post_save] hook [on_notification_saved]. *)
Definition on_notification_saved (t : NotificationTable) (instance : Notification)
  : NotificationTable :=
  fold_left (fun acc old => delete_instance acc (notif_id old))
            (old_notifications t (notif_user instance)) t.

(** [Notification.send]: [cls.create(...)] inserts the row ([created]
    defaults to [datetime.now()], [viewed] to False) and the save fires the
    post-save hook. *)
Definition send (t : NotificationTable) (user kind : nat) (msg : string)
  (rel : option nat) (url : option string) (now : nat)
  : NotificationTable * Notification :=
  let instance := mkNotification (next_notif_id t) user now kind msg rel url false in
  let t1 := mkNotificationTable (notifications t ++ [instance])
                                (S (next_notif_id t)) in
  (on_notification_saved t1 instance, instance).

Definition user_notifications (t : NotificationTable) (user : nat) : list Notification :=
  filter (fun r => notif_user r =? user) (notifications t).

(** [n] sends of kind 0 to [user], the i-th (from 0) at time [now + i]. *)
Fixpoint send_many (t : NotificationTable) (user : nat) (now n : nat)
  : NotificationTable :=
  match n with
  | 0 => t
  | S n' => send_many (fst (send t user 0 EmptyString None None now)) user (S now) n'
  end.

(* ------------------------------------------------------------------ *)
(** ** Automated Result Ingestor *)

(** A junit result element ([<failure>], [<error>], [<skipped>], ...): its
    attributes [result._elem.items()] and its text [result._elem.text]
    ([None] for an element without text, e.g. the
    [<skipped type='pytest.xfail' message='...'/>] pytest writes for an
    expected failure). *)
Record ResultElem := mkResultElem {
  result_attrs : list (string * string);
  result_text : option string
}.

(** A test case: its name and [case.result] ([None] when it passed). *)
Record TestCase := mkTestCase {
  case_name : string;
  case_result : option ResultElem
}.

Definition TestSuite := list TestCase.

(** The report text written by pytest's [--junitxml]: the empty string, a
    well-formed document listing test suites, or text that is not
    well-formed XML. *)
Inductive JunitText :=
| JunitEmpty
| JunitXml (suites : list TestSuite)
| JunitMalformed (text : string).

(** [_run_tests_on_solution] returns [None] when the executor failed. *)
Definition RawResults := option JunitText.

(** Python truthiness of [raw_results]: [None] and [''] are false. *)
Definition raw_truthy (raw : RawResults) : bool :=
  match raw with
  | Some (JunitXml _) | Some (JunitMalformed _) => true
  | _ => false
  end.

(** [junitparser.TestSuite.fromstring(raw).testsuites()]: the XML parser
    raises on text that is not well-formed ([None] is that exception). *)
Definition fromstring_testsuites (raw : JunitText) : option (list TestSuite) :=
  match raw with
  | JunitXml suites => Some suites
  | JunitEmpty | JunitMalformed _ => None
  end.

Definition FATAL_TEST_NAME : string := "fatal_test_failure".

(** The [UNITTEST_ERROR] member of [NotificationKind]. *)
Definition UNITTEST_ERROR : nat := 2.

(** A notification handed to [notifications.send]. *)
Record SentNotification := mkSentNotification {
  sent_user : nat;
  sent_kind : nat;
  sent_message : string;
  sent_related_id : nat;
  sent_action_url : string
}.

(** What ingestion writes: the [SolutionExerciseTestExecution] table and
    the notifications sent. *)
Record IngestWorld := mkIngestWorld {
  executions : list TestExecution;
  next_execution_id : nat;
  sent : list SentNotification
}.

(** State and exception monad: [None] is an exception raised to the
    caller. *)
Definition M (A : Type) : Type := IngestWorld -> option (A * IngestWorld).

Definition ret {A : Type} (a : A) : M A := fun w => Some (a, w).

Definition bind {A B : Type} (m : M A) (k : A -> M B) : M B :=
  fun w => match m w with
           | Some (a, w') => k a w'
           | None => None
           end.

Definition raise {A : Type} : M A := fun _ => None.

Notation "x <- m ;; k" := (bind m (fun x => k))
  (at level 61, m at next level, right associativity).
Notation "m ;;; k" := (bind m (fun _ => k))
  (at level 61, right associativity).

(** [SolutionExerciseTestExecution.create_execution_result]: one new row
    (the [ExerciseTestName] it points to is fetched or created by name).
    [staff_message] is a [TextField] without [null=True]: inserting [None]
    raises [IntegrityError] ([None] here). The [ExerciseTest] of the
    exercise exists: the only caller, [run_check], returns before ingestion
    when there is none. *)
Definition create_execution_result (solution_id : nat) (test_name : string)
  (user_msg : string) (staff_msg : option string) : M unit :=
  fun w =>
    match staff_msg with
    | None => None
    | Some staff =>
        let row := mkTestExecution (next_execution_id w) solution_id test_name
                                   user_msg staff in
        Some (tt, mkIngestWorld (executions w ++ [row]) (S (next_execution_id w))
                                (sent w))
    end.

(** Modelled from the spec: [lms.models.notifications.send], which is not
    under src/; the spec has every event producer call [Notification.send],
    which creates one Notification row per call. *)
Definition notifications_send (n : SentNotification) : M unit :=
  fun w => Some (tt, mkIngestWorld (executions w) (next_execution_id w)
                                   (sent w ++ [n])).

Fixpoint remove_newlines (s : string) : string :=
  match s with
  | EmptyString => EmptyString
  | String c s' =>
      if Ascii.eqb c (ascii_of_nat 10) then remove_newlines s'
      else String c (remove_newlines s')
  end.

(** [' '.join([elem[1].replace('\n', '') for elem in result._elem.items()])]. *)
Definition result_message (result : ResultElem) : string :=
  String.concat " " (map (fun elem => remove_newlines (snd elem)) (result_attrs result)).

(** The solution under check: [self._solution]. *)
Record Checked := mkChecked {
  checked_solution : Solution;
  checked_subject : string
}.

(** Decimal rendering of a natural number, as an f-string does. *)
Fixpoint uint_to_string (d : Decimal.uint) : string :=
  match d with
  | Decimal.Nil => EmptyString
  | Decimal.D0 d' => String "0" (uint_to_string d')
  | Decimal.D1 d' => String "1" (uint_to_string d')
  | Decimal.D2 d' => String "2" (uint_to_string d')
  | Decimal.D3 d' => String "3" (uint_to_string d')
  | Decimal.D4 d' => String "4" (uint_to_string d')
  | Decimal.D5 d' => String "5" (uint_to_string d')
  | Decimal.D6 d' => String "6" (uint_to_string d')
  | Decimal.D7 d' => String "7" (uint_to_string d')
  | Decimal.D8 d' => String "8" (uint_to_string d')
  | Decimal.D9 d' => String "9" (uint_to_string d')
  end.

Definition nat_to_string (n : nat) : string := uint_to_string (Nat.to_uint n).

(** [routes.SOLUTIONS] (its value lives in [lms.lmsweb.routes]). *)
Definition SOLUTIONS_ROUTE : string := "/view".

(** [f'{routes.SOLUTIONS}/{self._solution_id}']. *)
Definition solution_url (c : Checked) : string :=
  SOLUTIONS_ROUTE ++ "/" ++ nat_to_string (sol_id (checked_solution c)).

Definition fail_user_message : string := "the automatic checker could not run your code".
Definition fail_staff_message : string := "did you check your code?".

(** The [fail_message] of [_populate_junit_results]: a text mentioning the
    number of failures and the exercise subject. *)
Definition fail_message (number : nat) (subj : string) : string :=
  "the automatic checker failed on "
    ++ nat_to_string number ++ " examples in exercise " ++ subj.

(** [_handle_test_suite]: the loop over the cases, with the failure
    counter and [tests_ran]. *)
Fixpoint handle_cases (c : Checked) (cases : list TestCase)
  (number_of_failures : nat) (tests_ran : bool) : M (nat * bool) :=
  match cases with
  | [] => ret (number_of_failures, tests_ran)
  | case :: rest =>
      match case_result case with
      | None => handle_cases c rest number_of_failures true
      | Some result =>
          create_execution_result (sol_id (checked_solution c)) (case_name case)
                                  (result_message result) (result_text result) ;;;
          handle_cases c rest (S number_of_failures) true
      end
  end.

Definition handle_test_suite (c : Checked) (suite : TestSuite) : M (nat * bool) :=
  handle_cases c suite 0 false.

(** [_handle_failed_to_execute_tests]. *)
Definition handle_failed_to_execute_tests (c : Checked) : M unit :=
  create_execution_result (sol_id (checked_solution c)) FATAL_TEST_NAME
                          fail_user_message (Some fail_staff_message) ;;;
  notifications_send (mkSentNotification (solver (checked_solution c)) UNITTEST_ERROR
                                         fail_user_message
                                         (sol_id (checked_solution c))
                                         (solution_url c)).

(** The loop of [_populate_junit_results] over the suites. *)
Fixpoint handle_suites (c : Checked) (suites : list TestSuite)
  (number_of_failures : nat) (tests_ran : bool) : M (nat * bool) :=
  match suites with
  | [] => ret (number_of_failures, tests_ran)
  | suite :: rest =>
      fr <- handle_test_suite c suite ;;
      let '(failures, ran) := fr in
      handle_suites c rest (number_of_failures + failures)
                    (if ran && negb tests_ran then ran else tests_ran)
  end.

(** [UnitTestChecker._populate_junit_results]. *)
Definition populate_junit_results (c : Checked) (raw_results : RawResults) : M unit :=
  suites <- (if raw_truthy raw_results
             then match raw_results with
                  | Some raw => match fromstring_testsuites raw with
                                | Some s => ret s
                                | None => raise
                                end
                  | None => ret []
                  end
             else ret []) ;;
  fr <- handle_suites c suites 0 false ;;
  let '(number_of_failures, tests_ran) := fr in
  if negb tests_ran then handle_failed_to_execute_tests c
  else if number_of_failures =? 0 then ret tt
  else notifications_send
         (mkSentNotification (solver (checked_solution c)) UNITTEST_ERROR
                             (fail_message number_of_failures (checked_subject c))
                             (sol_id (checked_solution c))
                             (solution_url c)).

(** The failing cases of a suite (those with a result element) and whether
    a suite has any case at all. *)
Definition failing_cases (suite : TestSuite) : list TestCase :=
  filter (fun case => match case_result case with Some _ => true | None => false end) suite.

Definition has_cases (suite : TestSuite) : bool :=
  match suite with [] => false | _ => true end.

(** Whether [create_execution_result] gets a [staff_message]: a passing
    case writes no row, a failing one writes [result._elem.text]. *)
Definition result_has_text (case : TestCase) : bool :=
  match case_result case with
  | Some result => match result_text result with Some _ => true | None => false end
  | None => true
  end.

(* ------------------------------------------------------------------ *)
(** ** Concrete tables *)

(** One solution (id 0, exercise 1, solver 1) in state CREATED. *)
Definition table_one_created : SolutionTable :=
  mkSolutionTable [mkSolution 0 1 1 CREATED 0 "print(1)"] 1.

(** The same solution already reviewed (DONE). *)
Definition table_one_done : SolutionTable :=
  mkSolutionTable [mkSolution 0 1 1 DONE 0 "print(1)"] 1.

(** The same solution already superseded (OLD_SOLUTION). *)
Definition table_one_old : SolutionTable :=
  mkSolutionTable [mkSolution 0 1 1 OLD_SOLUTION 0 "print(1)"] 1.

(** Two CREATED solutions of exercise 1: [queue_a] (submitted first,
    1 comment, 2 test-execution rows) and [queue_b] (2 comments, none). *)
Definition queue_a : Solution := mkSolution 0 1 1 CREATED 1 "a".
Definition queue_b : Solution := mkSolution 1 1 2 CREATED 2 "b".

Definition queue_table : SolutionTable := mkSolutionTable [queue_a; queue_b] 2.

Definition queue_comments : list Comment :=
  [mkComment 0 0; mkComment 1 1; mkComment 2 1].

Definition queue_executions : list TestExecution :=
  [mkTestExecution 0 0 "test_one" "failed" "assert 1 == 2";
   mkTestExecution 1 0 "test_two" "failed" "assert 3 == 4"].

(** The spec's example: comment counts {2,0,1} and failure counts
    {0,0,3}. *)
Definition example_table : SolutionTable :=
  mkSolutionTable [mkSolution 0 1 1 CREATED 1 "x"; mkSolution 1 1 2 CREATED 5 "y";
                   mkSolution 2 1 3 CREATED 3 "z"] 3.

Definition example_comments : list Comment :=
  [mkComment 0 0; mkComment 1 0; mkComment 2 2].

Definition example_executions : list TestExecution :=
  [mkTestExecution 0 2 "t1" "m" "s"; mkTestExecution 1 2 "t2" "m" "s";
   mkTestExecution 2 2 "t3" "m" "s"].

(** Exercise 1 with four active solutions, two of them DONE, and one
    superseded; exercise 2 with a superseded solution only. *)
Definition percent_table : SolutionTable :=
  mkSolutionTable [mkSolution 0 1 1 DONE 1 "a"; mkSolution 1 1 2 DONE 2 "b";
                   mkSolution 2 1 3 CREATED 3 "c"; mkSolution 3 1 4 IN_CHECKING 4 "d";
                   mkSolution 4 1 4 OLD_SOLUTION 0 "e"; mkSolution 5 2 1 OLD_SOLUTION 5 "f"] 6.

(** An archived exercise with one submitted solution. *)
Definition archived_exercise : Exercise := mkExercise 1 "python 1" true.

Definition archived_table : SolutionTable :=
  mkSolutionTable [mkSolution 0 1 1 CREATED 1 "print(1)"] 1.

(** The solution under check in the ingestion examples, and an empty
    result table. *)
Definition checked_example : Checked :=
  mkChecked (mkSolution 3 1 7 CREATED 1 "print(1)") "python 1".

Definition world0 : IngestWorld := mkIngestWorld [] 0 [].

(** A notification table at the retention limit: user 7 has ten rows
    (ids 0..9, created at times 1..10) and user 8 two (ids 10 and 11). *)
Definition notif_full : NotificationTable :=
  mkNotificationTable
    (map (fun i => mkNotification i 7 (S i) 0 EmptyString None None false) (seq 0 10) ++
     [mkNotification 10 8 3 0 EmptyString None None false;
      mkNotification 11 8 4 0 EmptyString None None false])
    12.

(** The row of [notif_full] with id 3 (user 7, created at time 4). *)
Definition notif_three : Notification :=
  mkNotification 3 7 4 0 EmptyString None None false.



(** A report cut short: pytest's XML output truncated mid-element. *)
Definition report_truncated : JunitText :=
  JunitMalformed "<testsuites><testsuite name='pytest' tests='3'><testcase".

(** What the fatal-execution branch leaves for [checked_example]: one
    [fatal_test_failure] row and one notification to the solver. *)
Definition fatal_world : IngestWorld :=
  mkIngestWorld [mkTestExecution 0 3 FATAL_TEST_NAME fail_user_message fail_staff_message] 1
                [mkSentNotification 7 UNITTEST_ERROR fail_user_message 3 "/view/3"].

(* ------------------------------------------------------------------ *)
(** ** Further code of [lms/lmsdb/models.py] *)

(** [Solution.ordered_versions]: the rows of the solution's (exercise,
    solver) pair, [ORDER BY submission_timestamp ASC]. *)
Definition ordered_versions (t : SolutionTable) (self : Solution) : list Solution :=
  sort_by (fun a b => submission_timestamp a <=? submission_timestamp b)
          (filter (same_pair (exercise self) (solver self)) (solutions t)).

(** [Notification.fetch]: the user's rows (the inner join with [User]
    keeps every row, [user] being a non-null foreign key),
    [ORDER BY created DESC LIMIT MAX_PER_USER]. *)
Definition fetch (t : NotificationTable) (user : nat) : list Notification :=
  firstn MAX_PER_USER
         (sort_by created_desc_leb
                  (filter (fun r => notif_user r =? user) (notifications t))).

(** [Notification.read]: [self.viewed = True], then [self.save()], which
    for a row with a primary key is [UPDATE notification SET <every field>
    WHERE id = self.id] and returns the number of rows updated;
    [bool(...)] of it is returned.  The save fires the [post_save] hook
    [on_notification_saved] on [self]. *)
Definition read (t : NotificationTable) (self : Notification) : NotificationTable * bool :=
  let self' := mkNotification (notif_id self) (notif_user self) (created self)
                              (kind self) (message self) (related_id self)
                              (action_url self) true in
  let requested := fun r => notif_id r =? notif_id self in
  let t1 := mkNotificationTable
              (map (fun r => if requested r then self' else r) (notifications t))
              (next_notif_id t) in
  (on_notification_saved t1 self',
   negb (length (filter requested (notifications t)) =? 0)).

(** A full row of the [exercise] table: the columns [Solution.status]
    reads ([ex_row]) and the others. *)
Record ExerciseRecord := mkExerciseRecord {
  ex_row : Exercise;
  ex_date : nat;
  due_date : option nat;
  notebook_num : nat;
  ex_order : nat
}.

Definition ex_key (e : ExerciseRecord) : nat := ex_id (ex_row e).

(** [Exercise.get_objects]: [ORDER BY order], restricted to
    [is_archived == False] unless [fetch_archived]. *)
Definition get_objects (exs : list ExerciseRecord) (fetch_archived : bool)
  : list ExerciseRecord :=
  let exercises := sort_by (fun a b => ex_order a <=? ex_order b) exs in
  if fetch_archived then exercises
  else filter (fun e => negb (is_archived (ex_row e))) exercises.

(** The dictionary of [Exercise.as_dict], with the keys [of_user] adds
    ([None] when the key is absent, as [dict.get] reads it). *)
Record ExerciseDict := mkExerciseDict {
  d_exercise_id : nat;
  d_exercise_name : string;
  d_is_archived : bool;
  d_notebook : nat;
  d_due_date : option nat;
  d_solution_id : option nat;
  d_is_checked : option bool;
  d_checker : option string
}.

(** [Exercise.as_dict]. *)
Definition as_dict (e : ExerciseRecord) : ExerciseDict :=
  mkExerciseDict (ex_key e) (subject (ex_row e)) (is_archived (ex_row e))
                 (notebook_num e) (due_date e) None None None.

(** A Python dict with integer keys, in insertion order: assignment to an
    existing key keeps its position. *)
Fixpoint dict_set {A : Type} (k : nat) (v : A) (d : list (nat * A)) : list (nat * A) :=
  match d with
  | [] => [(k, v)]
  | (k', v') :: d' => if k' =? k then (k, v) :: d' else (k', v') :: dict_set k v d'
  end.

Fixpoint dict_get {A : Type} (k : nat) (d : list (nat * A)) : option A :=
  match d with
  | [] => None
  | (k', v) :: d' => if k' =? k then Some v else dict_get k d'
  end.

(** [Exercise.as_dicts]: [{exercise.id: exercise.as_dict() for ...}]. *)
Definition as_dicts (exs : list ExerciseRecord) : list (nat * ExerciseDict) :=
  fold_left (fun d e => dict_set (ex_key e) (as_dict e) d) exs [].

(** [Solution.is_checked]. *)
Definition is_checked (s : Solution) : bool := SolutionState_eqb (state s) DONE.

(** The [checker] column of the solutions, as the full name of the user it
    points to: [(solution id, checker.fullname)] for every solution whose
    [checker] is set. *)
Definition checker_fullname (checkers : list (nat * string)) (s : Solution)
  : option string :=
  option_map snd (find (fun p => fst p =? sol_id s) checkers).

(** The body of the loop of [Solution.of_user] for one solution:
    [exercises[solution.exercise_id]] ([KeyError] is [None]), and the first
    solution met for an exercise fills [solution_id], [is_checked] and,
    for a checked solution with a checker, [checker]. *)
Definition of_user_step (checkers : list (nat * string))
  (acc : option (list (nat * ExerciseDict))) (solution : Solution)
  : option (list (nat * ExerciseDict)) :=
  match acc with
  | None => None
  | Some exercises =>
      match dict_get (exercise solution) exercises with
      | None => None
      | Some ex =>
          match d_solution_id ex with
          | Some _ => Some exercises
          | None =>
              let checker :=
                if is_checked solution
                then match checker_fullname checkers solution with
                     | Some name => Some name
                     | None => d_checker ex
                     end
                else d_checker ex in
              Some (dict_set (exercise solution)
                      (mkExerciseDict (d_exercise_id ex) (d_exercise_name ex)
                                      (d_is_archived ex) (d_notebook ex) (d_due_date ex)
                                      (Some (sol_id solution))
                                      (Some (is_checked solution)) checker)
                      exercises)
          end
      end
  end.

(** [Solution.of_user]: the user's solutions to the exercises of
    [get_objects], newest first ([ORDER BY submission_timestamp DESC]),
    folded into [as_dicts]; [tuple(exercises.values())]. *)
Definition of_user (exs : list ExerciseRecord) (t : SolutionTable)
  (checkers : list (nat * string)) (user_id : nat) (with_archived : bool)
  : option (list ExerciseDict) :=
  let db_exercises := get_objects exs with_archived in
  let exercises := as_dicts db_exercises in
  let sols :=
    sort_by (fun a b => submission_timestamp b <=? submission_timestamp a)
      (filter (fun s => existsb (fun e => ex_key e =? exercise s) db_exercises
                        && (solver s =? user_id))
              (solutions t)) in
  option_map (map snd) (fold_left (of_user_step checkers) sols (Some exercises)).

(** Exceptions raised by the model code below. *)
Inductive Raised :=
| ValueError
| AttributeError
| DoesNotExist
| IntegrityError.

Inductive Result (A : Type) :=
| Ok (a : A)
| Err (e : Raised).
Arguments Ok {A} a.
Arguments Err {A} e.

(** [RoleOptions], in definition order. *)
Inductive RoleOptions :=
| STUDENT
| STAFF
| ADMINISTRATOR.

Definition all_role_options : list RoleOptions := [STUDENT; STAFF; ADMINISTRATOR].

(** The member's [.value]. *)
Definition role_value (r : RoleOptions) : string :=
  match r with
  | STUDENT => "Student"
  | STAFF => "Staff"
  | ADMINISTRATOR => "Administrator"
  end.

(** The member's name, the attribute [getattr] looks up. *)
Definition role_member_name (r : RoleOptions) : string :=
  match r with
  | STUDENT => "STUDENT"
  | STAFF => "STAFF"
  | ADMINISTRATOR => "ADMINISTRATOR"
  end.

(** [getattr(RoleOptions, name)]: the members are the only attributes of
    the enum class whose name has no lowercase letter and does not start
    with an underscore. *)
Definition role_getattr (name : string) : Result RoleOptions :=
  match find (fun r => String.eqb (role_member_name r) name) all_role_options with
  | Some r => Ok r
  | None => Err AttributeError
  end.

(** [str.upper] on ASCII text. *)
Definition ascii_upper (c : ascii) : ascii :=
  let n := nat_of_ascii c in
  if (97 <=? n) && (n <=? 122) then ascii_of_nat (n - 32) else c.

Fixpoint upper (s : string) : string :=
  match s with
  | EmptyString => EmptyString
  | String c s' => String (ascii_upper c) (upper s')
  end.

Record Role := mkRole {
  role_id : nat;
  role_name : string
}.

Record RoleTable := mkRoleTable {
  roles : list Role;
  next_role_id : nat
}.

(** [Role.create(name=...)]: [name] is [unique=True], so inserting a name
    already present raises [IntegrityError]. *)
Definition role_create (t : RoleTable) (name : string) : Result (RoleTable * Role) :=
  if existsb (fun r => String.eqb (role_name r) name) (roles t) then Err IntegrityError
  else let r := mkRole (next_role_id t) name in
       Ok (mkRoleTable (roles t ++ [r]) (S (next_role_id t)), r).

(** [create_basic_roles]: [Role.create(name=role.value)] for every member,
    in definition order. *)
Fixpoint create_roles (t : RoleTable) (rs : list RoleOptions) : Result RoleTable :=
  match rs with
  | [] => Ok t
  | r :: rs' => match role_create t (role_value r) with
                | Ok (t', _) => create_roles t' rs'
                | Err e => Err e
                end
  end.

Definition create_basic_roles (t : RoleTable) : Result RoleTable :=
  create_roles t all_role_options.

(** [Role.by_name]. *)
Definition by_name (t : RoleTable) (name : string) : Result Role :=
  if String.prefix "_" name then Err ValueError
  else match role_getattr (upper name) with
       | Err e => Err e
       | Ok member =>
           match find (fun r => String.eqb (role_name r) (role_value member)) (roles t) with
           | Some r => Ok r
           | None => Err DoesNotExist
           end
       end.

(** An [ExerciseTest] row; [exercise] is [unique=True]. *)
Record ExerciseTest := mkExerciseTest {
  et_id : nat;
  et_exercise : nat;
  et_code : string
}.

Record ExerciseTestTable := mkExerciseTestTable {
  exercise_tests : list ExerciseTest;
  next_et_id : nat
}.

(** [ExerciseTest.get_by_exercise]: [get_or_none(exercise == e)]. *)
Definition get_by_exercise (t : ExerciseTestTable) (e : nat) : option ExerciseTest :=
  find (fun r => et_exercise r =? e) (exercise_tests t).

(** [ExerciseTest.get_or_create_exercise_test]: [get_or_create] on the
    exercise (creating the row with the code when there is none); when the
    row existed, [instance.code = code] and [instance.save()]. *)
Definition get_or_create_exercise_test (t : ExerciseTestTable) (e : nat) (code : string)
  : ExerciseTestTable * ExerciseTest :=
  match get_by_exercise t e with
  | Some instance =>
      let instance' := mkExerciseTest (et_id instance) (et_exercise instance) code in
      (mkExerciseTestTable
         (map (fun r => if et_id r =? et_id instance then instance' else r)
              (exercise_tests t))
         (next_et_id t),
       instance')
  | None =>
      let instance := mkExerciseTest (next_et_id t) e code in
      (mkExerciseTestTable (exercise_tests t ++ [instance]) (S (next_et_id t)), instance)
  end.

(** The table as the database keeps it: unique ids below the counter and
    at most one row per exercise. *)
Definition et_table_wf (t : ExerciseTestTable) : Prop :=
  Forall (fun r => et_id r < next_et_id t) (exercise_tests t) /\
  NoDup (map et_id (exercise_tests t)) /\
  NoDup (map et_exercise (exercise_tests t)).

(** An [ExerciseTestName] row. *)
Record ExerciseTestName := mkExerciseTestName {
  etn_id : nat;
  etn_exercise_test : nat;
  test_name : string;
  pretty_test_name : string
}.

Record ExerciseTestNameTable := mkExerciseTestNameTable {
  exercise_test_names : list ExerciseTestName;
  next_etn_id : nat
}.

(** [ExerciseTestName.FATAL_TEST_PRETTY_TEST_NAME]. *)
Definition FATAL_TEST_PRETTY_TEST_NAME : string := "כישלון חמור".

Definition etn_matches (et : nat) (name : string) (r : ExerciseTestName) : bool :=
  (etn_exercise_test r =? et) && String.eqb (test_name r) name.

(** [get_or_create(exercise_test=et, test_name=name,
    defaults={pretty_test_name: pretty})]: the instance and [created]. *)
Definition etn_get_or_create (t : ExerciseTestNameTable) (et : nat) (name pretty : string)
  : ExerciseTestNameTable * (ExerciseTestName * bool) :=
  match find (etn_matches et name) (exercise_test_names t) with
  | Some instance => (t, (instance, false))
  | None =>
      let instance := mkExerciseTestName (next_etn_id t) et name pretty in
      (mkExerciseTestNameTable (exercise_test_names t ++ [instance]) (S (next_etn_id t)),
       (instance, true))
  end.

(** [ExerciseTestName.create_exercise_test_name]: [get_or_create], and when
    the row existed, [instance.pretty_test_name = pretty] and
    [instance.save()]. *)
Definition create_exercise_test_name (t : ExerciseTestNameTable) (et : nat)
  (name pretty : string) : ExerciseTestNameTable :=
  let '(t1, (instance, created)) := etn_get_or_create t et name pretty in
  if created then t1
  else mkExerciseTestNameTable
         (map (fun r => if etn_id r =? etn_id instance
                        then mkExerciseTestName (etn_id instance) (etn_exercise_test instance)
                                                (test_name instance) pretty
                        else r)
              (exercise_test_names t1))
         (next_etn_id t1).

(** [ExerciseTestName.get_exercise_test]: the [get_or_create] on
    [(ExerciseTest.get_by_exercise(exercise), test_name)], the pretty name
    defaulting to [FATAL_TEST_PRETTY_TEST_NAME] for [FATAL_TEST_NAME] and
    to the test name otherwise.  Without an [ExerciseTest] the lookup is on
    [exercise_test IS NULL], which finds nothing, and the insert of a NULL
    into the non-null foreign key raises [IntegrityError] ([None]). *)
Definition get_exercise_test (ets : ExerciseTestTable) (t : ExerciseTestNameTable)
  (exercise : nat) (name : string) : option (ExerciseTestNameTable * ExerciseTestName) :=
  match get_by_exercise ets exercise with
  | None => None
  | Some et =>
      let pretty := if String.eqb name FATAL_TEST_NAME
                    then FATAL_TEST_PRETTY_TEST_NAME else name in
      let '(t1, (instance, _)) := etn_get_or_create t (et_id et) name pretty in
      Some (t1, instance)
  end.

(** A [CommentText] row; [text] is [unique=True]. *)
Record CommentText := mkCommentText {
  ct_id : nat;
  ct_text : string;
  flake8_key : option string
}.

Record CommentTextTable := mkCommentTextTable {
  comment_texts : list CommentText;
  next_ct_id : nat
}.

(** [CommentText.create_comment]: [get_or_create(text=text,
    defaults={flake8_key: flake_key})], returning the instance. *)
Definition create_comment_text (t : CommentTextTable) (text : string)
  (flake_key : option string) : CommentTextTable * CommentText :=
  match find (fun r => String.eqb (ct_text r) text) (comment_texts t) with
  | Some instance => (t, instance)
  | None =>
      let instance := mkCommentText (next_ct_id t) text flake_key in
      (mkCommentTextTable (comment_texts t ++ [instance]) (S (next_ct_id t)), instance)
  end.

(** A full [Comment] row. *)
Record CommentRow := mkCommentRow {
  cr_id : nat;
  commenter : nat;
  cr_timestamp : nat;
  line_number : nat;
  cr_comment : nat;
  cr_solution : nat;
  is_auto : bool
}.

Record CommentTable := mkCommentTable {
  comment_rows : list CommentRow;
  next_cr_id : nat
}.

Definition comment_matches (commenter_id line comment_text solution_id : nat)
  (auto : bool) (r : CommentRow) : bool :=
  (commenter r =? commenter_id) && (line_number r =? line)
  && (cr_comment r =? comment_text) && (cr_solution r =? solution_id)
  && Bool.eqb (is_auto r) auto.

(** [Comment.create_comment]: [get_or_create] on all five fields, whose
    result, the pair [(instance, created)], is returned as is.  The insert
    ([timestamp] defaulting to [datetime.now()]) fails the
    [CHECK (line_number >= 1)] constraint with [IntegrityError] ([None]). *)
Definition create_comment (t : CommentTable) (commenter_id line comment_text solution_id : nat)
  (auto : bool) (now : nat) : option (CommentTable * (CommentRow * bool)) :=
  match find (comment_matches commenter_id line comment_text solution_id auto)
             (comment_rows t) with
  | Some instance => Some (t, (instance, false))
  | None =>
      if line <? 1 then None
      else let instance := mkCommentRow (next_cr_id t) commenter_id now line comment_text
                                        solution_id auto in
           Some (mkCommentTable (comment_rows t ++ [instance]) (S (next_cr_id t)),
                 (instance, true))
  end.

(* ------------------------------------------------------------------ *)
(** ** Concrete tables for the further code *)

(** Three exercises: archived "python 2" (order 1), open "python 1"
    (order 2) and open "python 3" (order 0). *)
Definition exercise_records : list ExerciseRecord :=
  [mkExerciseRecord (mkExercise 1 "python 1" false) 0 None 1 2;
   mkExerciseRecord (mkExercise 2 "python 2" true) 0 None 1 1;
   mkExerciseRecord (mkExercise 3 "python 3" false) 0 (Some 100) 2 0].

(** Solutions of user 4: two versions of exercise 1 (the newer one DONE,
    checked by "Yam"), one of the archived exercise 2. *)
Definition of_user_table : SolutionTable :=
  mkSolutionTable [mkSolution 0 1 4 OLD_SOLUTION 1 "a"; mkSolution 1 1 4 DONE 5 "b";
                   mkSolution 2 2 4 CREATED 3 "c"; mkSolution 3 1 5 CREATED 9 "d"] 4.

Definition of_user_checkers : list (nat * string) := [(1, "Yam")%string].

Definition empty_roles : RoleTable := mkRoleTable [] 1.

Definition exercise_test_table : ExerciseTestTable :=
  mkExerciseTestTable [mkExerciseTest 0 1 "def test_one(): pass"] 1.

(* ------------------------------------------------------------------ *)
(** ** Auxiliary definitions for the properties below *)

(** The rows [_base_next_unchecked] keeps: CREATED, and of the given
    exercise when one is given. *)
Definition queue_selected (scope : option nat) (s : Solution) : bool :=
  SolutionState_eqb (state s) CREATED
  && match scope with Some e => exercise s =? e | None => true end.

(** The entry [of_user] builds for an exercise from the first of the
    user's solutions to it met in its loop ([None]: no solution). *)
Definition of_user_entry (checkers : list (nat * string)) (e : ExerciseRecord)
  (first : option Solution) : ExerciseDict :=
  match first with
  | None => as_dict e
  | Some s =>
      mkExerciseDict (ex_key e) (subject (ex_row e)) (is_archived (ex_row e))
                     (notebook_num e) (due_date e) (Some (sol_id s)) (Some (is_checked s))
                     (if is_checked s then checker_fullname checkers s else None)
  end.

(** The role names [create_basic_roles] inserts. *)
Definition basic_role_name (n : string) : bool :=
  String.eqb n "Student" || String.eqb n "Staff" || String.eqb n "Administrator".

(** The row and the notification of [_handle_failed_to_execute_tests]. *)
Definition fatal_row (c : Checked) (w : IngestWorld) : TestExecution :=
  mkTestExecution (next_execution_id w) (sol_id (checked_solution c)) FATAL_TEST_NAME
                  fail_user_message fail_staff_message.

Definition fatal_notification (c : Checked) : SentNotification :=
  mkSentNotification (solver (checked_solution c)) UNITTEST_ERROR fail_user_message
                     (sol_id (checked_solution c)) (solution_url c).

(* ================================================================== *)
(** * Lemmas about the embedding *)

Lemma SolutionState_eqb_eq a b : SolutionState_eqb a b = true <-> a = b.
Proof. destruct a, b; simpl; split; congruence. Qed.

Lemma with_state_id r s : sol_id (with_state r s) = sol_id r.
Proof. reflexivity. Qed.

Lemma with_state_twice r s : with_state (with_state r s) s = with_state r s.
Proof. reflexivity. Qed.

Lemma same_pair_with_state e u r s : same_pair e u (with_state r s) = same_pair e u r.
Proof. reflexivity. Qed.

Lemma NoDup_map_inj {A B : Type} (f : A -> B) (l : list A) x y :
  NoDup (map f l) -> In x l -> In y l -> f x = f y -> x = y.
Proof.
  induction l as [|a l IH]; simpl; intros Hnd Hx Hy Hf; [contradiction|].
  inversion Hnd as [|? ? Hnotin Hnd']; subst.
  destruct Hx as [<-|Hx], Hy as [<-|Hy]; auto.
  - exfalso. apply Hnotin. rewrite Hf. now apply in_map.
  - exfalso. apply Hnotin. rewrite <- Hf. now apply in_map.
Qed.

Lemma filter_id_nil l id :
  ~ In id (map sol_id l) -> filter (fun r => sol_id r =? id) l = [].
Proof.
  induction l as [|a l IH]; simpl; intros Hin; [reflexivity|].
  destruct (Nat.eqb_spec (sol_id a) id) as [E|E]; [tauto|]. auto.
Qed.

Lemma filter_id_length_one l id :
  NoDup (map sol_id l) -> In id (map sol_id l) ->
  length (filter (fun r => sol_id r =? id) l) = 1.
Proof.
  induction l as [|a l IH]; simpl; intros Hnd Hin; [contradiction|].
  inversion Hnd as [|? ? Hnotin Hnd']; subst.
  destruct (Nat.eqb_spec (sol_id a) id) as [E|E].
  - simpl. f_equal. subst id.
    now rewrite filter_id_nil.
  - destruct Hin as [Hin|Hin]; [congruence|]. auto.
Qed.

(** Calling [set_state st] on the ids of [L] one after the other. *)
Lemma fold_set_state L st t :
  fold_left (fun acc o => fst (set_state acc (sol_id o) st)) L t =
  mkSolutionTable
    (map (fun r => if existsb (fun o => sol_id o =? sol_id r) L
                   then with_state r st else r) (solutions t))
    (next_solution_id t).
Proof.
  revert t. induction L as [|o L IH]; intros t; simpl.
  - rewrite map_id. now destruct t.
  - rewrite IH. simpl. f_equal. rewrite map_map. apply map_ext. intros r.
    rewrite (Nat.eqb_sym (sol_id o) (sol_id r)).
    destruct (sol_id r =? sol_id o); simpl.
    + destruct (existsb _ L); reflexivity.
    + reflexivity.
Qed.

(** The rows after [create_solution]: every other row of the pair is
    superseded, the new row is appended. *)
Lemma create_solution_rows t e u now js :
  table_wf t ->
  solutions (fst (create_solution t e u now js)) =
  map (fun r => if same_pair e u r then with_state r OLD_SOLUTION else r)
      (solutions t)
  ++ [mkSolution (next_solution_id t) e u CREATED now js].
Proof.
  intros [Hfresh Hnd]. unfold create_solution. cbv zeta.
  rewrite fold_set_state. simpl. rewrite map_app. f_equal.
  - apply map_ext_in. intros r Hr.
    assert (Hlt : sol_id r < next_solution_id t)
      by (rewrite Forall_forall in Hfresh; auto).
    destruct (same_pair e u r) eqn:Hp.
    + replace (existsb _ _) with true; [reflexivity|]. symmetry.
      apply existsb_exists. exists r. split; [|apply Nat.eqb_refl].
      apply filter_In. split; [apply in_or_app; now left|].
      rewrite Hp. simpl. apply Bool.negb_true_iff, Nat.eqb_neq. lia.
    + replace (existsb _ _) with false; [reflexivity|]. symmetry.
      apply Bool.not_true_iff_false. rewrite existsb_exists.
      intros [o [Ho Heq]]. apply Nat.eqb_eq in Heq.
      apply filter_In in Ho as [Ho Hsel].
      apply Bool.andb_true_iff in Hsel as [Hpo Hne].
      apply in_app_or in Ho as [Ho|[<-|[]]].
      * assert (o = r) by (apply (NoDup_map_inj sol_id (solutions t)); auto).
        congruence.
      * simpl in Hne. rewrite Nat.eqb_refl in Hne. discriminate.
  - simpl. replace (existsb _ _) with false; [reflexivity|]. symmetry.
    apply Bool.not_true_iff_false. rewrite existsb_exists.
    intros [o [Ho Heq]]. apply Nat.eqb_eq in Heq.
    apply filter_In in Ho as [_ Hsel]. simpl in Heq.
    apply Bool.andb_true_iff in Hsel as [_ Hne]. simpl in Hne.
    rewrite Heq, Nat.eqb_refl in Hne. discriminate.
Qed.

Lemma create_solution_next t e u now js :
  next_solution_id (fst (create_solution t e u now js)) = S (next_solution_id t).
Proof. unfold create_solution. cbv zeta. now rewrite fold_set_state. Qed.

Lemma create_solution_wf t e u now js :
  table_wf t -> table_wf (fst (create_solution t e u now js)).
Proof.
  intros Hwf. pose proof Hwf as [Hfresh Hnd]. split.
  - rewrite create_solution_next, create_solution_rows by exact Hwf.
    apply Forall_app. split.
    + apply Forall_map. eapply Forall_impl; [|exact Hfresh].
      intros r Hr. cbv beta in *. destruct (same_pair e u r); simpl; lia.
    + constructor; [simpl; lia | constructor].
  - rewrite create_solution_rows by exact Hwf. rewrite map_app, map_map.
    rewrite (map_ext _ sol_id) by (intros r; now destruct (same_pair e u r)).
    simpl. apply NoDup_app; [exact Hnd | constructor; [simpl; tauto | constructor] |].
    intros x Hx [Hy|[]]. subst x.
    apply in_map_iff in Hx as [r [Hr Hin]].
    rewrite Forall_forall in Hfresh. specialize (Hfresh r Hin). lia.
Qed.

Lemma pair_rows_create_solution t e u now js :
  table_wf t ->
  pair_rows (fst (create_solution t e u now js)) e u =
  map (fun r => with_state r OLD_SOLUTION) (pair_rows t e u)
  ++ [mkSolution (next_solution_id t) e u CREATED now js].
Proof.
  intros Hwf. unfold pair_rows. rewrite create_solution_rows by exact Hwf.
  rewrite filter_app. simpl. unfold same_pair at 3. simpl.
  rewrite !Nat.eqb_refl. simpl. f_equal.
  induction (solutions t) as [|r l IH]; simpl; [reflexivity|].
  destruct (same_pair e u r) eqn:Hp; simpl.
  - rewrite same_pair_with_state, Hp. simpl. now f_equal.
  - rewrite Hp. exact IH.
Qed.

(** The superseding invariant for one pair after [k + 1] submissions. *)
Definition superseded_after (t : SolutionTable) (e u k : nat) : Prop :=
  table_wf t /\
  exists olds newest,
    pair_rows t e u = olds ++ [newest] /\ length olds = k /\
    Forall (fun r => state r = OLD_SOLUTION) olds /\ state newest = CREATED /\
    Forall (fun r => sol_id r < sol_id newest) olds /\
    sol_id newest = pred (next_solution_id t).

Lemma pair_rows_in t e u r : In r (pair_rows t e u) -> In r (solutions t).
Proof. unfold pair_rows. rewrite filter_In. tauto. Qed.

Lemma superseded_after_step t e u k now js :
  superseded_after t e u k ->
  superseded_after (fst (create_solution t e u now js)) e u (S k).
Proof.
  intros [Hwf [olds [newest [Hp [Hl [Hold [Hnew [Hlt Hid]]]]]]]].
  split; [now apply create_solution_wf|].
  rewrite pair_rows_create_solution by exact Hwf. rewrite Hp.
  exists (map (fun r => with_state r OLD_SOLUTION) (olds ++ [newest])).
  exists (mkSolution (next_solution_id t) e u CREATED now js).
  repeat split.
  - rewrite length_map, length_app, Hl. simpl. lia.
  - apply Forall_map. apply Forall_forall. reflexivity.
  - apply Forall_map. apply Forall_forall. intros r Hr. simpl.
    assert (Hin : In r (solutions t)) by (apply (pair_rows_in t e u); now rewrite Hp).
    destruct Hwf as [Hfresh _]. rewrite Forall_forall in Hfresh. now apply Hfresh.
  - rewrite create_solution_next. reflexivity.
Qed.

Lemma superseded_after_many rest t e u k :
  superseded_after t e u k ->
  superseded_after (create_solutions t e u rest) e u (k + length rest).
Proof.
  revert t k. induction rest as [|[now js] rest IH]; intros t k H; simpl.
  - now rewrite Nat.add_0_r.
  - rewrite <- Nat.add_succ_comm. apply IH. now apply superseded_after_step.
Qed.

Lemma superseded_after_first t e u now js :
  table_wf t -> pair_rows t e u = [] ->
  superseded_after (fst (create_solution t e u now js)) e u 0.
Proof.
  intros Hwf Hnil. split; [now apply create_solution_wf|].
  rewrite pair_rows_create_solution by exact Hwf. rewrite Hnil.
  exists [], (mkSolution (next_solution_id t) e u CREATED now js).
  repeat split; [constructor | constructor |]. now rewrite create_solution_next.
Qed.

Lemma count_if_all_old l :
  Forall (fun r => state r = OLD_SOLUTION) l ->
  count_if (fun r => is_active (state r)) l = 0 /\
  count_if (fun r => SolutionState_eqb (state r) OLD_SOLUTION) l = length l.
Proof.
  induction l as [|r l IH]; intros H; [split; reflexivity|].
  inversion H as [|? ? Hr Hl]; subst. destruct (IH Hl) as [IH1 IH2].
  unfold count_if in *. simpl. rewrite Hr. simpl. split; [exact IH1|]. now f_equal.
Qed.

(* ================================================================== *)
(** * The claims *)

(** C1 (counterexample): [start_checking] is not a compare-and-set.  On a
    CREATED solution the first call succeeds and moves it to IN_CHECKING,
    and a second call on the now IN_CHECKING solution succeeds as well;
    a call on a DONE solution also returns true and moves it to
    IN_CHECKING. *)
Lemma start_checking_second_call_succeeds :
  state_of (fst (start_checking table_one_created 0)) 0 = Some IN_CHECKING /\
  snd (start_checking table_one_created 0) = true /\
  snd (start_checking (fst (start_checking table_one_created 0)) 0) = true /\
  snd (start_checking table_one_done 0) = true /\
  state_of (fst (start_checking table_one_done 0)) 0 = Some IN_CHECKING.
Proof. repeat split; reflexivity. Qed.

(** C1 (amended): [start_checking] is one unconditional update by id: when
    the id is in the table (ids unique) it sets that row to IN_CHECKING
    whatever its current state and returns true; when no row has the id it
    returns false and changes nothing. *)
Theorem start_checking_unconditional t id :
  NoDup (map sol_id (solutions t)) ->
  (In id (map sol_id (solutions t)) ->
   start_checking t id =
   (mkSolutionTable
      (map (fun r => if sol_id r =? id then with_state r IN_CHECKING else r)
           (solutions t))
      (next_solution_id t), true)) /\
  (~ In id (map sol_id (solutions t)) -> start_checking t id = (t, false)).
Proof.
  intros Hnd. split.
  - intros Hin. unfold start_checking, set_state.
    now rewrite filter_id_length_one.
  - intros Hin. unfold start_checking, set_state.
    rewrite filter_id_nil by exact Hin. simpl. f_equal.
    destruct t as [rows next]. simpl in *. f_equal.
    induction rows as [|r rows IH]; simpl in *; [reflexivity|].
    destruct (Nat.eqb_spec (sol_id r) id) as [E|E]; [tauto|].
    inversion Hnd; subst. f_equal. apply IH; tauto.
Qed.

Lemma start_checking_unconditional_witness :
  NoDup (map sol_id (solutions table_one_done)) /\
  In 0 (map sol_id (solutions table_one_done)) /\
  start_checking table_one_done 0 =
  (mkSolutionTable [mkSolution 0 1 1 IN_CHECKING 0 "print(1)"] 1, true).
Proof.
  assert (Hnd : NoDup (map sol_id (solutions table_one_done)))
    by (simpl; constructor; [simpl; tauto | constructor]).
  assert (Hin : In 0 (map sol_id (solutions table_one_done))) by (simpl; tauto).
  split; [exact Hnd|]. split; [exact Hin|].
  rewrite (proj1 (start_checking_unconditional table_one_done 0 Hnd) Hin).
  reflexivity.
Defined.

(** C2 (counterexample): DONE and OLD_SOLUTION are not terminal:
    [start_checking] moves a DONE and an OLD_SOLUTION solution to
    IN_CHECKING, and [create_solution] for the same pair moves the DONE
    solution to OLD_SOLUTION. *)
Lemma done_and_old_left_by_set_state :
  state_of table_one_done 0 = Some DONE /\
  state_of (fst (start_checking table_one_done 0)) 0 = Some IN_CHECKING /\
  state_of (fst (create_solution table_one_done 1 1 5 "print(2)")) 0
    = Some OLD_SOLUTION /\
  state_of table_one_old 0 = Some OLD_SOLUTION /\
  state_of (fst (start_checking table_one_old 0)) 0 = Some IN_CHECKING.
Proof. repeat split; reflexivity. Qed.

(** C2 (amended): [set_state] overwrites the state of the rows with the
    given id whatever that state is (so no state is terminal under it),
    while the Version Superseder of [create_solution] only writes
    OLD_SOLUTION: an OLD_SOLUTION row stays as it is, and every earlier row
    of the pair, DONE ones included, ends in OLD_SOLUTION. *)
Theorem set_state_overwrites_superseder_keeps_old t e u now js :
  table_wf t ->
  (forall id st,
     solutions (fst (set_state t id st)) =
     map (fun r => if sol_id r =? id then with_state r st else r) (solutions t)) /\
  (forall r, In r (solutions t) ->
     (state r = OLD_SOLUTION ->
      In r (solutions (fst (create_solution t e u now js)))) /\
     (same_pair e u r = true ->
      In (with_state r OLD_SOLUTION) (solutions (fst (create_solution t e u now js))))).
Proof.
  intros Hwf. split; [reflexivity|].
  intros r Hr. rewrite create_solution_rows by exact Hwf. split.
  - intros Hold. apply in_or_app. left. apply in_map_iff. exists r. split; [|exact Hr].
    destruct (same_pair e u r); [|reflexivity].
    destruct r; simpl in *; now subst.
  - intros Hp. apply in_or_app. left. apply in_map_iff. exists r.
    now rewrite Hp.
Qed.

Lemma set_state_overwrites_superseder_keeps_old_witness :
  table_wf table_one_done /\
  In (mkSolution 0 1 1 OLD_SOLUTION 0 "print(1)")
     (solutions (fst (create_solution table_one_done 1 1 5 "print(2)"))).
Proof.
  assert (Hwf : table_wf table_one_done).
  { split; simpl; [repeat constructor | constructor; [simpl; tauto | constructor]]. }
  split; [exact Hwf|].
  apply (proj2 (proj2 (set_state_overwrites_superseder_keeps_old
                         table_one_done 1 1 5 "print(2)" Hwf)
                  (mkSolution 0 1 1 DONE 0 "print(1)") (or_introl eq_refl))).
  reflexivity.
Defined.

(** C3: starting from a table with no solution of the (exercise, learner)
    pair, after N >= 1 sequential [create_solution] calls for the pair its
    rows are the N-1 older ones, all OLD_SOLUTION, followed by the newest
    one, CREATED: exactly one is active and N-1 are OLD_SOLUTION. *)
Theorem create_solutions_one_active t e u subs :
  table_wf t -> pair_rows t e u = [] -> subs <> [] ->
  let t' := create_solutions t e u subs in
  length (pair_rows t' e u) = length subs /\
  count_if (fun r => is_active (state r)) (pair_rows t' e u) = 1 /\
  count_if (fun r => SolutionState_eqb (state r) OLD_SOLUTION) (pair_rows t' e u)
    = length subs - 1 /\
  exists olds newest,
    pair_rows t' e u = olds ++ [newest] /\
    Forall (fun r => state r = OLD_SOLUTION) olds /\
    state newest = CREATED /\
    Forall (fun r => sol_id r < sol_id newest) olds.
Proof.
  intros Hwf Hnil Hsubs. cbv zeta.
  destruct subs as [|[now js] rest]; [congruence|].
  pose proof (superseded_after_many rest _ e u 0
                (superseded_after_first t e u now js Hwf Hnil)) as Hinv.
  change (create_solutions t e u ((now, js) :: rest))
    with (create_solutions (fst (create_solution t e u now js)) e u rest).
  change (length ((now, js) :: rest)) with (S (length rest)).
  destruct Hinv as [_ [olds [newest [Hp [Hl [Hold [Hnew [Hlt _]]]]]]]].
  rewrite Hp. destruct (count_if_all_old olds Hold) as [H0 H1].
  unfold count_if in *. rewrite !filter_app, !length_app, H0, H1, Hl.
  simpl. rewrite Hnew. simpl. repeat split; try lia.
  exists olds, newest. repeat split; auto.
Qed.

Lemma create_solutions_one_active_witness :
  table_wf (mkSolutionTable [] 0) /\
  pair_rows (mkSolutionTable [] 0) 1 1 = [] /\
  [(1, "a"); (2, "b"); (3, "c")]%string <> [] /\
  count_if (fun r => is_active (state r))
           (pair_rows (create_solutions (mkSolutionTable [] 0) 1 1
                                        [(1, "a"); (2, "b"); (3, "c")]%string) 1 1) = 1.
Proof.
  assert (Hwf : table_wf (mkSolutionTable [] 0)) by (split; constructor).
  assert (Hnil : pair_rows (mkSolutionTable [] 0) 1 1 = []) by reflexivity.
  assert (Hne : [(1, "a"); (2, "b"); (3, "c")]%string <> []) by discriminate.
  split; [exact Hwf|]. split; [exact Hnil|]. split; [exact Hne|].
  exact (proj1 (proj2 (create_solutions_one_active _ 1 1 _ Hwf Hnil Hne))).
Defined.

(** C10: [solution_exists] is true exactly when some row of the
    (exercise, learner) pair, of any state and any age, has identical
    content. *)
Theorem solution_exists_any_row t e u js :
  solution_exists t e u js = true <->
  exists r, In r (solutions t) /\ exercise r = e /\ solver r = u /\
            json_data_str r = js.
Proof.
  unfold solution_exists. rewrite existsb_exists. split.
  - intros [r [Hr H]]. rewrite !Bool.andb_true_iff, !Nat.eqb_eq, String.eqb_eq in H.
    exists r. tauto.
  - intros [r [Hr [He [Hu Hj]]]]. exists r. split; [exact Hr|].
    rewrite !Bool.andb_true_iff, !Nat.eqb_eq, String.eqb_eq. tauto.
Qed.

(** C4 (evaluation at the failing input): with the two LEFT OUTER JOINs a
    solution with [c] comments and [f] test-execution rows is counted as
    [c * max f 1] comments and [f * max c 1] failures.  [queue_a] has fewer
    comments than [queue_b] (1 against 2) and is ranked first by the spec's
    order, yet the selector returns [queue_b]: both show 2 "comments", and
    [queue_b] shows 0 "failures" against 2 for [queue_a].  The spec's own
    example (comment counts {2,0,1}, failure counts {0,0,3}) is still
    answered with the uncommented solution. *)
Lemma next_unchecked_join_fanout :
  base_next_unchecked queue_table queue_comments queue_executions None
    = [(queue_b, 2, 0); (queue_a, 2, 2)] /\
  next_unchecked queue_table queue_comments queue_executions = Some queue_b /\
  state queue_a = CREATED /\ In queue_a (solutions queue_table) /\
  spec_queue_key queue_comments queue_executions queue_a = (1, 2, 1) /\
  spec_queue_key queue_comments queue_executions queue_b = (2, 0, 2) /\
  key3_lt (spec_queue_key queue_comments queue_executions queue_a)
          (spec_queue_key queue_comments queue_executions queue_b) /\
  next_unchecked example_table example_comments example_executions
    = Some (mkSolution 1 1 2 CREATED 5 "y").
Proof. vm_compute. repeat split; auto. Qed.

(** C8 (evaluation at the failing input): for an exercise with no active
    solution, [SUM] is NULL and [left_in_exercise] raises instead of
    returning a value; with 4 active solutions of which 2 are DONE it
    returns 50. *)
Lemma left_in_exercise_no_active_raises :
  left_in_exercise percent_table 2 = None /\
  left_in_exercise (mkSolutionTable [] 0) 1 = None /\
  left_in_exercise percent_table 1 = Some 50.
Proof. vm_compute. repeat split. Qed.

(** C9 (counterexample): an archived exercise with an active solution gets
    a row of [Solution.status]. *)
Lemma status_lists_archived_exercise :
  status [archived_exercise] archived_table = [mkStatusRow 1 "python 1" true 1 0] /\
  is_archived archived_exercise = true.
Proof. split; reflexivity. Qed.

(* ------------------------------------------------------------------ *)
(** ** ORDER BY only permutes the rows *)

Lemma insert_by_perm {A : Type} (leb : A -> A -> bool) x l :
  Permutation (insert_by leb x l) (x :: l).
Proof.
  induction l as [|y l IH]; simpl; [reflexivity|].
  destruct (leb x y); [reflexivity|].
  transitivity (y :: x :: l); [now constructor | apply perm_swap].
Qed.

Lemma sort_by_perm {A : Type} (leb : A -> A -> bool) l :
  Permutation (sort_by leb l) l.
Proof.
  induction l as [|x l IH]; simpl; [reflexivity|].
  rewrite insert_by_perm. now constructor.
Qed.

(* ------------------------------------------------------------------ *)
(** ** The grouped aggregate of [Solution.status] *)

Lemma filter_filter_andb {A : Type} (p q : A -> bool) l :
  filter q (filter p l) = filter (fun x => p x && q x) l.
Proof.
  induction l as [|x l IH]; simpl; [reflexivity|].
  destruct (p x); simpl; [destruct (q x); simpl|]; now rewrite IH.
Qed.

Lemma filter_some_map {A B : Type} (q : B -> bool) (x : A) (ys : list B) :
  filter (fun row => match snd row with Some s => q s | None => false end)
         (map (fun y => (x, Some y)) ys)
  = map (fun y => (x, Some y)) (filter q ys).
Proof.
  induction ys as [|y ys IH]; simpl; [reflexivity|].
  destruct (q y); simpl; now rewrite IH.
Qed.

Definition active_of (sols : list Solution) (k : nat) : list Solution :=
  filter (fun s => (exercise s =? k) && is_active (state s)) sols.

Lemma status_rows_eq exs sols :
  filter (fun row => match snd row with Some s => is_active (state s) | None => false end)
         (left_join exs (fun ex => filter (fun s => exercise s =? ex_id ex) sols))
  = flat_map (fun ex => map (fun s => (ex, Some s)) (active_of sols (ex_id ex))) exs.
Proof.
  unfold left_join, active_of. induction exs as [|ex exs IH]; [reflexivity|].
  cbn [flat_map]. rewrite filter_app, IH. f_equal.
  rewrite <- filter_filter_andb.
  destruct (filter (fun s => exercise s =? ex_id ex) sols) as [|y ys] eqn:Hf.
  - reflexivity.
  - rewrite <- filter_some_map. reflexivity.
Qed.

Lemma status_group_eq exs sols ex :
  NoDup (map ex_id exs) -> In ex exs ->
  filter (fun row => ex_id (fst row) =? ex_id ex)
    (flat_map (fun ex' => map (fun s => (ex', Some s)) (active_of sols (ex_id ex'))) exs)
  = map (fun s => (ex, Some s)) (active_of sols (ex_id ex)).
Proof.
  induction exs as [|ex' exs IH]; simpl; intros Hnd Hin; [contradiction|].
  inversion Hnd as [|? ? Hnotin Hnd']; subst.
  rewrite filter_app.
  assert (Hmap : forall x (L : list Solution) k,
             filter (fun row : Exercise * option Solution => ex_id (fst row) =? k)
                    (map (fun s => (x, Some s)) L)
             = if ex_id x =? k then map (fun s => (x, Some s)) L else []).
  { intros x L k. induction L as [|s L IHL]; simpl; [now destruct (ex_id x =? k)|].
    rewrite IHL. now destruct (ex_id x =? k). }
  rewrite Hmap. destruct Hin as [<-|Hin].
  - rewrite Nat.eqb_refl.
    enough (filter (fun row => ex_id (fst row) =? ex_id ex')
              (flat_map (fun ex0 => map (fun s => (ex0, Some s)) (active_of sols (ex_id ex0))) exs)
            = []) as -> by apply app_nil_r.
    clear IH Hnd Hnd'. induction exs as [|e2 exs IH2]; simpl; [reflexivity|].
    rewrite filter_app, Hmap. simpl in Hnotin.
    destruct (Nat.eqb_spec (ex_id e2) (ex_id ex')) as [E|E]; [tauto|].
    simpl. apply IH2. tauto.
  - destruct (Nat.eqb_spec (ex_id ex') (ex_id ex)) as [E|E].
    + exfalso. apply Hnotin. rewrite E. now apply in_map.
    + simpl. now apply IH.
Qed.

Lemma extract_solutions (ex : Exercise) (L : list Solution) :
  flat_map (fun row => match snd row with Some s => [s] | None => [] end)
           (map (fun s => (ex, Some s)) L) = L.
Proof. induction L as [|s L IH]; simpl; [reflexivity|]. now rewrite IH. Qed.

Lemma sum_checked_active sols k :
  sum_nat (map one_if_is_checked (active_of sols k)) =
  count_if (fun s => (exercise s =? k) && SolutionState_eqb (state s) DONE) sols.
Proof.
  unfold active_of, count_if. induction sols as [|s sols IH]; simpl; [reflexivity|].
  destruct (exercise s =? k); simpl; [|exact IH].
  assert (Hone : one_if_is_checked s = if SolutionState_eqb (state s) DONE then 1 else 0)
    by reflexivity.
  destruct (state s) eqn:Hs; simpl in Hone; simpl; rewrite ?Hone; simpl; now rewrite ?IH.
Qed.

(** C9 (amended): [Solution.status] has one row for each exercise with at
    least one active solution, archived or not (the row carries the
    exercise's [is_archived] flag), giving the number of its active
    solutions and of its DONE ones; exercises with no active solution have
    no row. *)
Theorem status_rows_characterised exs t r :
  NoDup (map ex_id exs) ->
  In r (status exs t) <->
  exists ex,
    In ex exs /\
    0 < count_if (fun s => (exercise s =? ex_id ex) && is_active (state s)) (solutions t) /\
    r = mkStatusRow (ex_id ex) (subject ex) (is_archived ex)
          (count_if (fun s => (exercise s =? ex_id ex) && is_active (state s))
                    (solutions t))
          (count_if (fun s => (exercise s =? ex_id ex) && SolutionState_eqb (state s) DONE)
                    (solutions t)).
Proof.
  intros Hnd. unfold status. cbv zeta. rewrite status_rows_eq. split.
  - intros Hr. apply (Permutation_in _ (sort_by_perm _ _)) in Hr.
    apply in_flat_map in Hr as [ex [Hex Hr]].
    rewrite (status_group_eq exs (solutions t) ex Hnd Hex), extract_solutions in Hr.
    exists ex. split; [exact Hex|].
    rewrite <- sum_checked_active. unfold count_if. fold (active_of (solutions t) (ex_id ex)).
    destruct (active_of (solutions t) (ex_id ex)) as [|s0 l0]; simpl in Hr; [contradiction|].
    destruct Hr as [<-|[]]. simpl. split; [lia | reflexivity].
  - intros [ex [Hex [Hpos ->]]].
    apply (Permutation_in _ (Permutation_sym (sort_by_perm _ _))).
    apply in_flat_map. exists ex. split; [exact Hex|].
    rewrite (status_group_eq exs (solutions t) ex Hnd Hex), extract_solutions.
    rewrite <- sum_checked_active. unfold count_if in *.
    fold (active_of (solutions t) (ex_id ex)) in *.
    destruct (active_of (solutions t) (ex_id ex)) as [|s0 l0]; simpl in *; [lia|].
    now left.
Qed.

Lemma status_rows_characterised_witness :
  NoDup (map ex_id [archived_exercise]) /\
  In (mkStatusRow 1 "python 1" true 1 0) (status [archived_exercise] archived_table).
Proof.
  assert (Hnd : NoDup (map ex_id [archived_exercise]))
    by (simpl; constructor; [simpl; tauto | constructor]).
  split; [exact Hnd|].
  apply (proj2 (status_rows_characterised [archived_exercise] archived_table
                  (mkStatusRow 1 "python 1" true 1 0) Hnd)).
  exists archived_exercise. vm_compute. repeat split; auto.
Defined.

(* ------------------------------------------------------------------ *)
(** ** ORDER BY yields a sorted list *)

Section SortBy.
Context {A : Type} (leb : A -> A -> bool).
Hypothesis leb_total : forall a b, leb a b = false -> leb b a = true.
Hypothesis leb_trans : forall a b c, leb a b = true -> leb b c = true -> leb a c = true.

Lemma insert_by_sorted x l :
  Sorted (fun a b => leb a b = true) l ->
  Sorted (fun a b => leb a b = true) (insert_by leb x l).
Proof.
  induction l as [|y l IH]; intros Hs; simpl; [repeat constructor|].
  destruct (leb x y) eqn:Exy; [constructor; [exact Hs | now constructor]|].
  apply Sorted_inv in Hs as [Hs Hhd]. constructor; [now apply IH|].
  destruct l as [|z l]; simpl; [constructor; now apply leb_total|].
  destruct (leb x z); constructor; [now apply leb_total|].
  now inversion Hhd.
Qed.

Lemma sort_by_strongly_sorted l :
  StronglySorted (fun a b => leb a b = true) (sort_by leb l).
Proof.
  apply Sorted_StronglySorted; [intros a b c; apply leb_trans|].
  induction l as [|x l IH]; simpl; [constructor|]. now apply insert_by_sorted.
Qed.
End SortBy.

Lemma StronglySorted_app_rel {A : Type} (R : A -> A -> Prop) K D k d :
  StronglySorted R (K ++ D) -> In k K -> In d D -> R k d.
Proof.
  induction K as [|k0 K IH]; simpl; intros Hs Hk Hd; [contradiction|].
  apply StronglySorted_inv in Hs as [Hs Hall].
  destruct Hk as [<-|Hk].
  - rewrite Forall_forall in Hall. apply Hall, in_or_app. now right.
  - now apply IH.
Qed.

Lemma Permutation_filter_same {A : Type} (p : A -> bool) l l' :
  Permutation l l' -> Permutation (filter p l) (filter p l').
Proof.
  induction 1 as [|x l l' _ IH|x y l|l l' l'' _ IH1 _ IH2]; simpl.
  - constructor.
  - destruct (p x); [now constructor | exact IH].
  - destruct (p x), (p y); try constructor; reflexivity.
  - now transitivity (filter p l').
Qed.

Lemma NoDup_app_disjoint {A : Type} (l1 l2 : list A) x :
  NoDup (l1 ++ l2) -> In x l1 -> ~ In x l2.
Proof.
  induction l1 as [|a l1 IH]; simpl; intros Hnd Hx; [contradiction|].
  inversion Hnd as [|? ? Hnotin Hnd']; subst.
  destruct Hx as [<-|Hx]; [intros Hin; apply Hnotin, in_or_app; now right|].
  now apply IH.
Qed.

Lemma NoDup_map_filter {A B : Type} (f : A -> B) p l :
  NoDup (map f l) -> NoDup (map f (filter p l)).
Proof.
  induction l as [|a l IH]; simpl; intros Hnd; [constructor|].
  inversion Hnd as [|? ? Hnotin Hnd']; subst.
  destruct (p a); simpl; [|now apply IH].
  constructor; [|now apply IH].
  intros Hin. apply Hnotin. apply in_map_iff in Hin as [y [Hy Hin]].
  apply filter_In in Hin as [Hin _]. rewrite <- Hy. now apply in_map.
Qed.

(* ------------------------------------------------------------------ *)
(** ** Notification retention *)

Lemma filter_all_true {A : Type} (p : A -> bool) l :
  (forall x, In x l -> p x = true) -> filter p l = l.
Proof.
  induction l as [|a l IH]; simpl; intros H; [reflexivity|].
  rewrite (H a (or_introl eq_refl)). f_equal. apply IH. auto.
Qed.

Lemma filter_all_false {A : Type} (p : A -> bool) l :
  (forall x, In x l -> p x = false) -> filter p l = [].
Proof.
  induction l as [|a l IH]; simpl; intros H; [reflexivity|].
  rewrite (H a (or_introl eq_refl)). apply IH. auto.
Qed.

Lemma fold_delete_instance D t :
  fold_left (fun acc o => delete_instance acc (notif_id o)) D t =
  mkNotificationTable
    (filter (fun r => negb (existsb (fun o => notif_id o =? notif_id r) D))
            (notifications t))
    (next_notif_id t).
Proof.
  revert t. induction D as [|o D IH]; intros t; simpl.
  - rewrite filter_all_true by reflexivity. now destruct t.
  - rewrite IH. simpl. f_equal. rewrite filter_filter_andb. apply filter_ext.
    intros r. rewrite (Nat.eqb_sym (notif_id r) (notif_id o)).
    now destruct (notif_id o =? notif_id r).
Qed.

Lemma created_desc_leb_total a b :
  created_desc_leb a b = false -> created_desc_leb b a = true.
Proof. unfold created_desc_leb. rewrite Nat.leb_gt, Nat.leb_le. lia. Qed.

Lemma created_desc_leb_trans a b c :
  created_desc_leb a b = true -> created_desc_leb b c = true -> created_desc_leb a c = true.
Proof. unfold created_desc_leb. rewrite !Nat.leb_le. lia. Qed.

Lemma filter_comm {A : Type} (p q : A -> bool) l :
  filter p (filter q l) = filter q (filter p l).
Proof.
  rewrite !filter_filter_andb. apply filter_ext. intros x. apply Bool.andb_comm.
Qed.

(** The user's rows after [send]: the rows selected by the hook are
    deleted from the user's rows after the insert. *)
Lemma send_user_rows t user knd msg rel url now :
  let U1 := user_notifications t user ++ [snd (send t user knd msg rel url now)] in
  user_notifications (fst (send t user knd msg rel url now)) user =
  filter (fun r => negb (existsb (fun o => notif_id o =? notif_id r)
                                 (skipn MAX_PER_USER (sort_by created_desc_leb U1)))) U1.
Proof.
  cbv zeta. unfold send. cbv zeta.
  remember (mkNotification (next_notif_id t) user now knd msg rel url false) as inst eqn:Hinst.
  assert (Hu : notif_user inst = user) by now subst.
  cbn [fst snd]. unfold on_notification_saved. rewrite fold_delete_instance.
  unfold old_notifications. rewrite Hu.
  assert (HU1 : filter (fun r => notif_user r =? user) (notifications t ++ [inst])
                = user_notifications t user ++ [inst]).
  { rewrite filter_app. cbn [filter]. rewrite Hu, Nat.eqb_refl. reflexivity. }
  cbn [notifications]. rewrite HU1.
  unfold user_notifications at 1. cbn [notifications]. rewrite filter_comm, HU1.
  reflexivity.
Qed.

(** C5: after [Notification.send] the recipient keeps at most
    MAX_PER_USER (10) rows, namely min(10, n) of the n rows it had after
    the insert; every kept row was there, and every row of the user that
    was deleted is no newer than every kept one.  Sending 15 notifications
    (at times 1..15) to one user leaves exactly the rows created at times
    6..15. *)
Theorem send_retains_newest t user knd msg rel url now :
  NoDup (map notif_id (notifications t)) ->
  Forall (fun r => notif_id r < next_notif_id t) (notifications t) ->
  let t' := fst (send t user knd msg rel url now) in
  let before := user_notifications t user ++ [snd (send t user knd msg rel url now)] in
  length (user_notifications t' user) = Nat.min MAX_PER_USER (length before) /\
  (forall r, In r (user_notifications t' user) -> In r before) /\
  (forall r d, In r (user_notifications t' user) -> In d before ->
               ~ In d (user_notifications t' user) -> created d <= created r) /\
  map created (user_notifications (send_many (mkNotificationTable [] 0) 7 1 15) 7)
    = [6; 7; 8; 9; 10; 11; 12; 13; 14; 15].
Proof.
  intros Hnd Hfresh. cbv zeta.
  rewrite send_user_rows.
  set (U1 := user_notifications t user ++ [snd (send t user knd msg rel url now)]).
  set (S := sort_by created_desc_leb U1).
  set (K := firstn MAX_PER_USER S). set (D := skipn MAX_PER_USER S).
  set (p := fun r => negb (existsb (fun o => notif_id o =? notif_id r) D)).
  assert (HnU : NoDup (map notif_id U1)).
  { unfold U1. rewrite map_app. apply NoDup_app.
    - now apply NoDup_map_filter.
    - constructor; [simpl; tauto | constructor].
    - intros x Hx [Hy|[]]. simpl in Hy. subst x.
      apply in_map_iff in Hx as [r [Hr Hin]].
      unfold user_notifications in Hin. apply filter_In in Hin as [Hin _].
      rewrite Forall_forall in Hfresh. specialize (Hfresh r Hin). lia. }
  assert (HpS : Permutation S U1) by apply sort_by_perm.
  assert (HKD : S = K ++ D) by (symmetry; apply firstn_skipn).
  assert (HnS : NoDup (map notif_id (K ++ D))).
  { rewrite <- HKD. apply (Permutation_NoDup (Permutation_map notif_id (Permutation_sym HpS))).
    exact HnU. }
  assert (Hperm : Permutation (filter p U1) K).
  { transitivity (filter p S); [apply Permutation_filter_same; now symmetry|].
    rewrite HKD, filter_app.
    rewrite (filter_all_false p D).
    - rewrite app_nil_r. rewrite filter_all_true; [reflexivity|].
      intros k Hk. unfold p. apply Bool.negb_true_iff, Bool.not_true_iff_false.
      rewrite existsb_exists. intros [o [Ho Heq]]. apply Nat.eqb_eq in Heq.
      assert (o = k).
      { apply (NoDup_map_inj notif_id (K ++ D)); auto; apply in_or_app; auto. }
      subst o. apply (NoDup_app_disjoint K D k); auto.
      now apply (NoDup_map_inv notif_id).
    - intros d Hd. unfold p. apply Bool.negb_false_iff, existsb_exists.
      exists d. split; [exact Hd | apply Nat.eqb_refl]. }
  assert (Hsorted : StronglySorted (fun a b => created_desc_leb a b = true) (K ++ D)).
  { rewrite <- HKD. apply sort_by_strongly_sorted.
    - apply created_desc_leb_total.
    - apply created_desc_leb_trans. }
  split; [|split; [|split]].
  - rewrite (Permutation_length Hperm). unfold K. rewrite length_firstn.
    now rewrite (Permutation_length HpS).
  - intros r Hr. apply (Permutation_in _ Hperm) in Hr.
    apply (Permutation_in _ HpS). rewrite HKD. apply in_or_app. now left.
  - intros r d Hr Hd Hnot. apply (Permutation_in _ Hperm) in Hr.
    apply (Permutation_in _ (Permutation_sym HpS)) in Hd. rewrite HKD in Hd.
    apply in_app_or in Hd as [Hd|Hd].
    + exfalso. apply Hnot. apply (Permutation_in _ (Permutation_sym Hperm)). exact Hd.
    + pose proof (StronglySorted_app_rel _ K D r d Hsorted Hr Hd) as Hrd.
      unfold created_desc_leb in Hrd. now apply Nat.leb_le in Hrd.
  - vm_compute. reflexivity.
Qed.

Lemma send_retains_newest_witness :
  NoDup (map notif_id (notifications notif_full)) /\
  Forall (fun r => notif_id r < next_notif_id notif_full) (notifications notif_full) /\
  length (user_notifications (fst (send notif_full 7 0 "hi" None None 11)) 7) = 10 /\
  map created (user_notifications (fst (send notif_full 7 0 "hi" None None 11)) 7)
    = [2; 3; 4; 5; 6; 7; 8; 9; 10; 11].
Proof.
  assert (Hnd : NoDup (map notif_id (notifications notif_full))).
  { replace (map notif_id (notifications notif_full)) with (seq 0 12) by reflexivity.
    apply seq_NoDup. }
  assert (Hf : Forall (fun r => notif_id r < next_notif_id notif_full)
                      (notifications notif_full)).
  { apply Forall_forall. intros r Hr. apply Nat.ltb_lt.
    exact (proj1 (forallb_forall (fun r => notif_id r <? 12) (notifications notif_full)) eq_refl r Hr). }
  split; [exact Hnd|]. split; [exact Hf|]. split; [|vm_compute; reflexivity].
  rewrite (proj1 (send_retains_newest notif_full 7 0 "hi" None None 11 Hnd Hf)).
  reflexivity.
Defined.

(* ------------------------------------------------------------------ *)
(** ** Ingestion *)

Lemma handle_cases_spec c cases nf ran w :
  forallb result_has_text cases = true ->
  exists rows,
    handle_cases c cases nf ran w =
    Some ((nf + length (failing_cases cases), ran || has_cases cases),
          mkIngestWorld (executions w ++ rows) (next_execution_id w + length rows) (sent w)) /\
    map exercise_test_name rows = map case_name (failing_cases cases) /\
    Forall (fun x => execution_solution x = sol_id (checked_solution c)) rows.
Proof.
  revert nf ran w. induction cases as [|case cases IH]; intros nf ran w Htext.
  - exists []. simpl. rewrite !Nat.add_0_r, Bool.orb_false_r, app_nil_r.
    split; [now destruct w | split; constructor].
  - simpl in Htext. apply andb_prop in Htext as [Hcase Hrest].
    unfold result_has_text in Hcase.
    simpl. destruct (case_result case) as [result|] eqn:Hr.
    + destruct (result_text result) as [staff|] eqn:Ht; [|discriminate].
      unfold bind at 1, create_execution_result at 1.
      destruct (IH (S nf) true
                 (mkIngestWorld
                    (executions w ++ [mkTestExecution (next_execution_id w)
                                        (sol_id (checked_solution c)) (case_name case)
                                        (result_message result) staff])
                    (S (next_execution_id w)) (sent w)) Hrest)
        as [rows [Heq [Hnames Hsol]]].
      exists (mkTestExecution (next_execution_id w) (sol_id (checked_solution c))
                (case_name case) (result_message result) staff :: rows).
      rewrite Heq. simpl. rewrite <- app_assoc, Bool.orb_true_r. simpl.
      split; [repeat f_equal; lia|]. split; [simpl; now f_equal | now constructor].
    + destruct (IH nf true w Hrest) as [rows [Heq [Hnames Hsol]]].
      exists rows. rewrite Heq, Bool.orb_true_r. simpl. auto.
Qed.

Lemma handle_cases_untexted c cases nf ran w :
  forallb result_has_text cases = false ->
  handle_cases c cases nf ran w = None.
Proof.
  revert nf ran w. induction cases as [|case cases IH]; intros nf ran w Htext;
    [discriminate|].
  simpl in Htext. unfold result_has_text in Htext.
  simpl. destruct (case_result case) as [result|].
  - unfold bind at 1, create_execution_result at 1.
    destruct (result_text result) as [staff|]; [|reflexivity].
    apply IH. exact Htext.
  - apply IH. exact Htext.
Qed.

Lemma handle_suites_spec c suites nf ran w :
  forallb result_has_text (concat suites) = true ->
  exists rows,
    handle_suites c suites nf ran w =
    Some ((nf + length (flat_map failing_cases suites), ran || existsb has_cases suites),
          mkIngestWorld (executions w ++ rows) (next_execution_id w + length rows) (sent w)) /\
    map exercise_test_name rows = map case_name (flat_map failing_cases suites) /\
    Forall (fun x => execution_solution x = sol_id (checked_solution c)) rows.
Proof.
  revert nf ran w. induction suites as [|suite suites IH]; intros nf ran w Htext.
  - exists []. simpl. rewrite !Nat.add_0_r, Bool.orb_false_r, app_nil_r.
    split; [now destruct w | split; constructor].
  - simpl in Htext. rewrite forallb_app in Htext.
    apply andb_prop in Htext as [Hsuite Hrest].
    simpl. unfold bind at 1, handle_test_suite at 1.
    destruct (handle_cases_spec c suite 0 false w Hsuite) as [rows1 [Heq1 [Hn1 Hs1]]].
    rewrite Heq1. simpl.
    destruct (IH (nf + length (failing_cases suite))
                 (if has_cases suite && negb ran then has_cases suite else ran)
                 (mkIngestWorld (executions w ++ rows1)
                                (next_execution_id w + length rows1) (sent w)) Hrest)
      as [rows2 [Heq2 [Hn2 Hs2]]].
    exists (rows1 ++ rows2). rewrite Heq2. simpl.
    split; [|split; [rewrite !map_app; now f_equal | now apply Forall_app]].
    rewrite <- app_assoc, length_app, length_app, Nat.add_assoc, Nat.add_assoc.
    destruct suite, ran; reflexivity.
Qed.

Lemma handle_suites_untexted c suites nf ran w :
  forallb result_has_text (concat suites) = false ->
  handle_suites c suites nf ran w = None.
Proof.
  revert nf ran w. induction suites as [|suite suites IH]; intros nf ran w Htext;
    [discriminate|].
  simpl in Htext. rewrite forallb_app in Htext.
  simpl. unfold bind at 1, handle_test_suite at 1.
  destruct (forallb result_has_text suite) eqn:Hsuite.
  - destruct (handle_cases_spec c suite 0 false w Hsuite) as [rows1 [Heq1 _]].
    rewrite Heq1. simpl. apply IH. exact Htext.
  - rewrite (handle_cases_untexted c suite 0 false w Hsuite). reflexivity.
Qed.



(** C6 (evaluation at the failing input): a report that is not
    well-formed XML makes [junitparser] raise inside
    [_populate_junit_results], and nothing catches it, so ingestion fails
    the caller instead of taking the fatal-execution branch.  A missing or
    empty report, or one with no case, takes that branch: one
    [fatal_test_failure] row and one notification to the solver. *)
Lemma populate_malformed_report_raises :
  populate_junit_results checked_example (Some report_truncated) world0 = None /\
  populate_junit_results checked_example None world0 = Some (tt, fatal_world) /\
  populate_junit_results checked_example (Some JunitEmpty) world0 = Some (tt, fatal_world) /\
  populate_junit_results checked_example (Some (JunitXml [[]])) world0
    = Some (tt, fatal_world).
Proof. repeat split; reflexivity. Qed.

(* ================================================================== *)
(** * Further properties of the code *)


Lemma filter_not_pair_rows e u l :
  filter (fun r => negb (same_pair e u r))
    (map (fun r => if same_pair e u r then with_state r OLD_SOLUTION else r) l)
  = filter (fun r => negb (same_pair e u r)) l.
Proof.
  induction l as [|r l IH]; simpl; [reflexivity|].
  destruct (same_pair e u r) eqn:Hp; simpl.
  - rewrite same_pair_with_state, Hp. exact IH.
  - rewrite Hp. simpl. now f_equal.
Qed.

(** X1: on a well-formed table, [create_solution] leaves the rows of every
    other (exercise, solver) pair untouched, adds exactly one row, returns
    the new CREATED row with the next id, and keeps the table well-formed. *)
Theorem create_solution_frame t e u now js :
  table_wf t ->
  filter (fun r => negb (same_pair e u r)) (solutions (fst (create_solution t e u now js)))
  = filter (fun r => negb (same_pair e u r)) (solutions t) /\
  length (solutions (fst (create_solution t e u now js))) = S (length (solutions t)) /\
  snd (create_solution t e u now js) = mkSolution (next_solution_id t) e u CREATED now js /\
  In (snd (create_solution t e u now js)) (solutions (fst (create_solution t e u now js))) /\
  table_wf (fst (create_solution t e u now js)).
Proof.
  intros Hwf.
  assert (Hsnd : snd (create_solution t e u now js)
                 = mkSolution (next_solution_id t) e u CREATED now js) by reflexivity.
  rewrite Hsnd. split; [|split; [|split; [reflexivity|split]]].
  - rewrite create_solution_rows by exact Hwf. rewrite filter_app, filter_not_pair_rows.
    unfold same_pair. simpl. rewrite !Nat.eqb_refl. simpl. apply app_nil_r.
  - rewrite create_solution_rows by exact Hwf. rewrite length_app, length_map. simpl. lia.
  - rewrite create_solution_rows by exact Hwf. apply in_or_app. right. now left.
  - now apply create_solution_wf.
Qed.

Lemma create_solution_frame_witness :
  table_wf table_one_done /\
  length (solutions (fst (create_solution table_one_done 1 1 5 "print(2)"))) = 2.
Proof.
  assert (Hwf : table_wf table_one_done).
  { split; simpl; [repeat constructor | constructor; [simpl; tauto | constructor]]. }
  split; [exact Hwf|].
  exact (proj1 (proj2 (create_solution_frame table_one_done 1 1 5 "print(2)" Hwf))).
Defined.

(** X2: right after [create_solution], [solution_exists] for the same pair
    and the same content is true. *)
Theorem create_solution_then_exists t e u now js :
  solution_exists (fst (create_solution t e u now js)) e u js = true.
Proof.
  unfold create_solution. cbv zeta. rewrite fold_set_state. unfold solution_exists.
  simpl. rewrite map_app, existsb_app. simpl.
  destruct (existsb _ _) eqn:E; [reflexivity|].
  destruct (existsb (fun o => sol_id o =? next_solution_id t) _); simpl;
    rewrite !Nat.eqb_refl, String.eqb_refl; reflexivity.
Qed.

Lemma base_next_unchecked_grouped t cs xs scope :
  Permutation (base_next_unchecked t cs xs scope)
    (map (fun s =>
       let g := filter (fun row => sol_id (fst (fst row)) =? sol_id s)
                  (filter (fun row => queue_selected scope (fst (fst row)))
                     (left_join
                        (left_join (solutions t)
                           (fun s => filter (fun c => comment_solution c =? sol_id s) cs))
                        (fun sc => filter (fun x => execution_solution x =? sol_id (fst sc)) xs))) in
       (s,
        count_if (fun row => match snd (fst row) with Some _ => true | None => false end) g,
        count_if (fun row => match snd row with Some _ => true | None => false end) g))
       (filter (queue_selected scope) (solutions t))).
Proof. apply sort_by_perm. Qed.

Lemma next_unchecked_of_selected t cs xs scope :
  match next_unchecked_of t cs xs scope with
  | None => filter (queue_selected scope) (solutions t) = []
  | Some s => In s (filter (queue_selected scope) (solutions t))
  end.
Proof.
  unfold next_unchecked_of. pose proof (base_next_unchecked_grouped t cs xs scope) as P.
  destruct (base_next_unchecked t cs xs scope) as [|[[s cc] ff] rest].
  - apply Permutation_nil in P. now apply map_eq_nil in P.
  - assert (Hin : In (s, cc, ff) (map _ (filter (queue_selected scope) (solutions t))))
      by (apply (Permutation_in _ P); now left).
    apply in_map_iff in Hin as [s0 [Heq Hs0]]. now inversion Heq; subst.
Qed.

Lemma queue_selected_spec scope s :
  queue_selected scope s = true <->
  state s = CREATED /\ (forall e, scope = Some e -> exercise s = e).
Proof.
  unfold queue_selected. rewrite andb_true_iff, SolutionState_eqb_eq.
  destruct scope as [e|]; split; intros [H1 H2]; split; auto.
  - intros e' [= <-]. now apply Nat.eqb_eq.
  - apply Nat.eqb_eq. now apply H2.
  - discriminate.
Qed.

(** X4: [next_unchecked_of] returns nothing exactly when there is no
    CREATED solution (of the exercise, when one is given); otherwise it
    returns such a solution of the table. *)
Theorem next_unchecked_of_sound t cs xs scope :
  (next_unchecked_of t cs xs scope = None <->
   ~ exists s, In s (solutions t) /\ state s = CREATED /\
               (forall e, scope = Some e -> exercise s = e)) /\
  (forall s, next_unchecked_of t cs xs scope = Some s ->
   In s (solutions t) /\ state s = CREATED /\ (forall e, scope = Some e -> exercise s = e)).
Proof.
  pose proof (next_unchecked_of_selected t cs xs scope) as H.
  destruct (next_unchecked_of t cs xs scope) as [s|].
  - apply filter_In in H as [Hin Hsel]. apply queue_selected_spec in Hsel.
    split.
    + split; [discriminate|]. intros Hno. exfalso. apply Hno. now exists s.
    + intros s' [= <-]. tauto.
  - split; [|discriminate]. split; [|reflexivity]. intros _ [s [Hin Hsel]].
    apply queue_selected_spec in Hsel.
    assert (In s (filter (queue_selected scope) (solutions t))) by (now apply filter_In).
    rewrite H in *. contradiction.
Qed.

Lemma count_if_app {A : Type} (p : A -> bool) l1 l2 :
  count_if p (l1 ++ l2) = count_if p l1 + count_if p l2.
Proof. unfold count_if. now rewrite filter_app, length_app. Qed.

Lemma left_join_filter_fst {A B : Type} (p : A -> bool) (xs : list A) (m : A -> list B) :
  filter (fun row => p (fst row)) (left_join xs m) = left_join (filter p xs) m.
Proof.
  unfold left_join. induction xs as [|x xs IH]; [reflexivity|].
  cbn [flat_map filter]. rewrite filter_app, IH.
  destruct (p x) eqn:Hp; cbn [flat_map].
  - f_equal. destruct (m x) as [|y ys]; simpl; rewrite Hp; [reflexivity|].
    f_equal. induction ys as [|y' ys IHy]; simpl; [reflexivity|]. rewrite Hp. now f_equal.
  - destruct (m x) as [|y ys]; simpl; rewrite Hp; [reflexivity|].
    induction ys as [|y' ys IHy]; simpl; [reflexivity|]. now rewrite Hp.
Qed.

Lemma left_join2_filter {A B C : Type} (P : A -> bool) (xs : list A)
  (m1 : A -> list B) (m2 : A * option B -> list C) :
  filter (fun row => P (fst (fst row))) (left_join (left_join xs m1) m2)
  = left_join (left_join (filter P xs) m1) m2.
Proof.
  rewrite (left_join_filter_fst (fun y => P (fst y))).
  f_equal. apply left_join_filter_fst.
Qed.

Lemma left_join_const {A B : Type} (xs : list A) (m : A -> list B) X :
  (forall x, In x xs -> m x = X) -> left_join xs m = left_join xs (fun _ => X).
Proof.
  unfold left_join. induction xs as [|x xs IH]; intros H; [reflexivity|].
  cbn [flat_map]. rewrite H by (now left). f_equal. apply IH. intros y Hy. apply H. now right.
Qed.

Lemma count_some_snd_const {A B : Type} (xs : list A) (X : list B) :
  count_if (fun row => match snd row with Some _ => true | None => false end)
           (left_join xs (fun _ => X)) = length xs * length X.
Proof.
  unfold left_join. induction xs as [|x xs IH]; [reflexivity|].
  cbn [flat_map]. rewrite count_if_app, IH. simpl length.
  destruct X as [|y ys]; [reflexivity|].
  assert (Hc : forall l : list B,
             count_if (fun row : A * option B => match snd row with Some _ => true | None => false end)
                      (map (fun z => (x, Some z)) l) = length l).
  { induction l as [|z l IHl]; [reflexivity|]. unfold count_if in *. simpl. now rewrite IHl. }
  rewrite Hc. lia.
Qed.

Lemma count_some_fst_const {A C B : Type} (xs : list (A * option C)) (X : list B) :
  count_if (fun row => match snd (fst row) with Some _ => true | None => false end)
           (left_join xs (fun _ => X))
  = count_if (fun y => match snd y with Some _ => true | None => false end) xs
    * Nat.max (length X) 1.
Proof.
  unfold left_join. induction xs as [|[a oc] xs IH]; [reflexivity|].
  cbn [flat_map]. rewrite count_if_app, IH.
  destruct X as [|y ys].
  - unfold count_if. simpl. destruct oc; simpl; lia.
  - assert (Hm : forall L : list B,
               count_if (fun row : A * option C * option B =>
                           match snd (fst row) with Some _ => true | None => false end)
                        (map (fun z => ((a, oc), Some z)) L)
               = (match oc with Some _ => 1 | None => 0 end) * length L).
    { induction L as [|z L IHL]; [unfold count_if; simpl; lia|].
      unfold count_if in *. simpl. destruct oc; simpl; rewrite IHL; lia. }
    cbv beta iota. rewrite Hm. unfold count_if. simpl length.
    destruct oc; simpl; lia.
Qed.

Lemma left_join_one_length {A B : Type} (s : A) (m : A -> list B) :
  length (left_join [s] m) = Nat.max (length (m s)) 1 /\
  count_if (fun y => match snd y with Some _ => true | None => false end) (left_join [s] m)
    = length (m s) /\
  Forall (fun y => fst y = s) (left_join [s] m).
Proof.
  unfold left_join. cbn [flat_map]. rewrite app_nil_r.
  destruct (m s) as [|y ys]; [repeat constructor|].
  remember (y :: ys) as L eqn:HL.
  assert (Hmax : Nat.max (length L) 1 = length L) by (subst L; simpl; lia).
  rewrite Hmax, length_map. clear HL Hmax. split; [reflexivity|].
  induction L as [|z L IH]; [split; constructor|].
  destruct IH as [IH1 IH2]. unfold count_if in *. simpl. split; [now f_equal|].
  now constructor.
Qed.

Lemma filter_unique_id (P : Solution -> bool) l s :
  NoDup (map sol_id l) -> In s l -> P s = true ->
  filter (fun s' => P s' && (sol_id s' =? sol_id s)) l = [s].
Proof.
  induction l as [|a l IH]; simpl; intros Hnd Hin HP; [contradiction|].
  inversion Hnd as [|? ? Hnotin Hnd']; subst.
  destruct Hin as [<-|Hin].
  - rewrite HP, Nat.eqb_refl. simpl. f_equal.
    apply filter_all_false. intros x Hx.
    destruct (Nat.eqb_spec (sol_id x) (sol_id a)) as [E|E]; [|apply andb_false_r].
    exfalso. apply Hnotin. rewrite <- E. now apply in_map.
  - destruct (Nat.eqb_spec (sol_id a) (sol_id s)) as [E|E].
    + exfalso. apply Hnotin. rewrite E. now apply in_map.
    + rewrite andb_false_r. now apply IH.
Qed.

Lemma base_next_unchecked_row_counts t cs xs scope s cc ff :
  NoDup (map sol_id (solutions t)) ->
  In (s, cc, ff) (base_next_unchecked t cs xs scope) ->
  In s (solutions t) /\ queue_selected scope s = true /\
  cc = count_if (fun x => comment_solution x =? sol_id s) cs
       * Nat.max (count_if (fun x => execution_solution x =? sol_id s) xs) 1 /\
  ff = count_if (fun x => execution_solution x =? sol_id s) xs
       * Nat.max (count_if (fun x => comment_solution x =? sol_id s) cs) 1.
Proof.
  intros Hnd Hin.
  apply (Permutation_in _ (base_next_unchecked_grouped t cs xs scope)) in Hin.
  apply in_map_iff in Hin as [s0 [Heq Hs0]]. cbv zeta in Heq.
  injection Heq as <- Hcc Hff. apply filter_In in Hs0 as [Hs0 Hsel].
  split; [exact Hs0|]. split; [exact Hsel|].
  rewrite filter_filter_andb in Hcc, Hff.
  rewrite (left_join2_filter (fun y => queue_selected scope y && (sol_id y =? sol_id s0)))
    in Hcc, Hff.
  rewrite (filter_unique_id (queue_selected scope)) in Hcc, Hff by assumption.
  set (L := left_join [s0] (fun s => filter (fun c => comment_solution c =? sol_id s) cs)) in *.
  destruct (left_join_one_length s0 (fun s => filter (fun c => comment_solution c =? sol_id s) cs))
    as [HL1 [HL2 HL3]]. fold L in HL1, HL2, HL3.
  rewrite (left_join_const L _ (filter (fun x => execution_solution x =? sol_id s0) xs))
    in Hcc, Hff.
  2, 3: intros y Hy; rewrite Forall_forall in HL3; now rewrite (HL3 y Hy).
  rewrite count_some_fst_const, HL2 in Hcc. rewrite count_some_snd_const, HL1 in Hff.
  unfold count_if. split; [now rewrite <- Hcc|]. rewrite <- Hff. apply Nat.mul_comm.
Qed.

Lemma key3_leb_refl k : key3_leb k k = true.
Proof.
  destruct k as [[a b] c]. unfold key3_leb.
  rewrite !Nat.ltb_irrefl, !Nat.eqb_refl, Nat.leb_refl. reflexivity.
Qed.

Lemma key3_leb_total a b : key3_leb a b = false -> key3_leb b a = true.
Proof.
  destruct a as [[a1 a2] a3], b as [[b1 b2] b3]. unfold key3_leb.
  intros H. apply Bool.not_true_iff_false in H.
  repeat rewrite ?orb_true_iff, ?andb_true_iff, ?Nat.ltb_lt, ?Nat.eqb_eq, ?Nat.leb_le in *.
  lia.
Qed.

Lemma key3_leb_trans a b c : key3_leb a b = true -> key3_leb b c = true -> key3_leb a c = true.
Proof.
  destruct a as [[a1 a2] a3], b as [[b1 b2] b3], c as [[c1 c2] c3]. unfold key3_leb.
  repeat rewrite ?orb_true_iff, ?andb_true_iff, ?Nat.ltb_lt, ?Nat.eqb_eq, ?Nat.leb_le in *.
  lia.
Qed.

(** X5: each row of [_base_next_unchecked] counts, for its solution,
    comments times max(failures, 1) and failures times max(comments, 1),
    the fan-out of the two LEFT JOINs. *)
Theorem base_next_unchecked_counts t cs xs scope s cc ff :
  NoDup (map sol_id (solutions t)) ->
  In (s, cc, ff) (base_next_unchecked t cs xs scope) ->
  cc = count_if (fun x => comment_solution x =? sol_id s) cs
       * Nat.max (count_if (fun x => execution_solution x =? sol_id s) xs) 1 /\
  ff = count_if (fun x => execution_solution x =? sol_id s) xs
       * Nat.max (count_if (fun x => comment_solution x =? sol_id s) cs) 1.
Proof. intros Hnd Hin. now apply base_next_unchecked_row_counts in Hin. Qed.

Lemma base_next_unchecked_counts_witness :
  NoDup (map sol_id (solutions queue_table)) /\
  In (queue_a, 2, 2) (base_next_unchecked queue_table queue_comments queue_executions None) /\
  2 = count_if (fun x => comment_solution x =? sol_id queue_a) queue_comments
      * Nat.max (count_if (fun x => execution_solution x =? sol_id queue_a) queue_executions) 1.
Proof.
  assert (Hnd : NoDup (map sol_id (solutions queue_table))).
  { simpl. constructor; [simpl; intuition discriminate | constructor; [simpl; tauto | constructor]]. }
  assert (Hin : In (queue_a, 2, 2)
                   (base_next_unchecked queue_table queue_comments queue_executions None)).
  { vm_compute. right. left. reflexivity. }
  split; [exact Hnd|]. split; [exact Hin|].
  exact (proj1 (base_next_unchecked_counts queue_table queue_comments queue_executions None
                  queue_a 2 2 Hnd Hin)).
Defined.

(** X6: the solution [next_unchecked_of] returns is minimal, among all
    CREATED solutions in scope, for the (comment count, failure count,
    submission time) key as the joined query counts them. *)
Theorem next_unchecked_of_minimal t cs xs scope s :
  NoDup (map sol_id (solutions t)) ->
  next_unchecked_of t cs xs scope = Some s ->
  let key := fun x =>
    (count_if (fun c => comment_solution c =? sol_id x) cs
       * Nat.max (count_if (fun f => execution_solution f =? sol_id x) xs) 1,
     count_if (fun f => execution_solution f =? sol_id x) xs
       * Nat.max (count_if (fun c => comment_solution c =? sol_id x) cs) 1,
     submission_timestamp x) in
  forall s', In s' (solutions t) -> state s' = CREATED ->
    (forall e, scope = Some e -> exercise s' = e) ->
    key3_leb (key s) (key s') = true.
Proof.
  intros Hnd Hs key s' Hin' Hst' Hsc'.
  assert (Hsel' : queue_selected scope s' = true).
  { unfold queue_selected. apply andb_true_iff. split; [now apply SolutionState_eqb_eq|].
    destruct scope as [e|]; [apply Nat.eqb_eq; now apply Hsc' | reflexivity]. }
  assert (Hq' : exists cc ff, In (s', cc, ff) (base_next_unchecked t cs xs scope)).
  { assert (Hin : In s' (filter (queue_selected scope) (solutions t))) by (now apply filter_In).
    eapply (in_map (fun s => let g := _ in (s, count_if _ g, count_if _ g))) in Hin.
    apply (Permutation_in _ (Permutation_sym (base_next_unchecked_grouped t cs xs scope))) in Hin.
    eexists; eexists; exact Hin. }
  destruct Hq' as [cc' [ff' Hq']].
  unfold next_unchecked_of in Hs.
  pose proof (sort_by_strongly_sorted (fun a b => key3_leb (queue_key a) (queue_key b))
                (fun a b => key3_leb_total (queue_key a) (queue_key b))
                (fun a b c => key3_leb_trans (queue_key a) (queue_key b) (queue_key c)))
    as Hsorted.
  unfold base_next_unchecked in Hsorted, Hq', Hs. cbv zeta in Hsorted, Hq', Hs.
  match type of Hs with
  | match sort_by ?leb ?l with _ => _ end = _ =>
      specialize (Hsorted l); set (S := sort_by leb l) in Hs, Hsorted, Hq'
  end.
  destruct S as [|[[s0 cc] ff] rest] eqn:HS; [discriminate|]. injection Hs as ->.
  assert (Hhead : In (s, cc, ff) (base_next_unchecked t cs xs scope))
    by (unfold base_next_unchecked; cbv zeta; fold S; rewrite HS; now left).
  assert (Hq'' : In (s', cc', ff') (base_next_unchecked t cs xs scope))
    by (unfold base_next_unchecked; cbv zeta; fold S; rewrite HS; exact Hq').
  apply base_next_unchecked_row_counts in Hhead as [_ [_ [Hcc Hff]]]; [|exact Hnd].
  apply base_next_unchecked_row_counts in Hq'' as [_ [_ [Hcc' Hff']]]; [|exact Hnd].
  assert (Hk : key3_leb (queue_key (s, cc, ff)) (queue_key (s', cc', ff')) = true).
  { destruct Hq' as [Heq|Hq'].
    - rewrite Heq. apply key3_leb_refl.
    - apply StronglySorted_inv in Hsorted as [_ Hall]. rewrite Forall_forall in Hall.
      now apply Hall. }
  unfold queue_key in Hk. unfold key. rewrite <- Hcc, <- Hff, <- Hcc', <- Hff'. exact Hk.
Qed.

Lemma next_unchecked_of_minimal_witness :
  NoDup (map sol_id (solutions queue_table)) /\
  next_unchecked_of queue_table queue_comments queue_executions None = Some queue_b /\
  key3_leb (2, 0, 2) (2, 2, 1) = true.
Proof.
  assert (Hnd : NoDup (map sol_id (solutions queue_table))).
  { simpl. constructor; [simpl; intuition discriminate | constructor; [simpl; tauto | constructor]]. }
  assert (Hs : next_unchecked_of queue_table queue_comments queue_executions None = Some queue_b)
    by reflexivity.
  split; [exact Hnd|]. split; [exact Hs|].
  exact (next_unchecked_of_minimal queue_table queue_comments queue_executions None queue_b
           Hnd Hs queue_a (or_introl eq_refl) eq_refl (fun e H => ltac:(discriminate H))).
Defined.

Lemma count_if_le {A : Type} (p q : A -> bool) l :
  (forall x, p x = true -> q x = true) -> count_if p l <= count_if q l.
Proof.
  intros H. unfold count_if. induction l as [|x l IH]; simpl; [lia|].
  destruct (p x) eqn:Hp; [rewrite (H x Hp); simpl; lia|].
  destruct (q x); simpl; lia.
Qed.

(** X7: [left_in_exercise] returns a value exactly when the exercise has
    an active solution, and then it is floor(DONE * 100 / active), at most
    100. *)
Theorem left_in_exercise_spec t e :
  let n := count_if (fun r => (exercise r =? e) && is_active (state r)) (solutions t) in
  let d := count_if (fun r => (exercise r =? e) && SolutionState_eqb (state r) DONE)
                    (solutions t) in
  (left_in_exercise t e = None <-> n = 0) /\
  (forall p, left_in_exercise t e = Some p -> p = d * 100 / n /\ p <= 100) /\
  d <= n.
Proof.
  cbv zeta.
  assert (Hdn : count_if (fun r => (exercise r =? e) && SolutionState_eqb (state r) DONE)
                         (solutions t)
                <= count_if (fun r => (exercise r =? e) && is_active (state r)) (solutions t)).
  { apply count_if_le. intros r. rewrite !andb_true_iff, SolutionState_eqb_eq.
    intros [H1 H2]. split; [exact H1|]. now rewrite H2. }
  rewrite <- sum_checked_active in *.
  change (count_if (fun r => (exercise r =? e) && is_active (state r)) (solutions t))
    with (length (active_of (solutions t) e)) in *.
  unfold left_in_exercise. cbv zeta.
  change (filter (fun r => (exercise r =? e) && is_active (state r)) (solutions t))
    with (active_of (solutions t) e).
  destruct (active_of (solutions t) e) as [|r rows] eqn:Hrows.
  - simpl. repeat split; try discriminate; lia.
  - assert (Hne : (length (r :: rows) =? 0) = false) by reflexivity.
    cbv beta iota. rewrite Hne.
    set (N := length (r :: rows)) in *. set (D := sum_nat _) in *.
    split; [split; [discriminate | unfold N; cbn [length]; lia]|].
    split; [|exact Hdn].
    intros p Hp. assert (Hpv : D * 100 / N = p) by congruence. rewrite <- Hpv.
    split; [reflexivity|]. apply Nat.Div0.div_le_upper_bound. lia.
Qed.

Lemma sum_one_if_le l : sum_nat (map one_if_is_checked l) <= length l.
Proof.
  induction l as [|s l IH]; [simpl; lia|].
  change (one_if_is_checked s + sum_nat (map one_if_is_checked l) <= S (length l)).
  assert (one_if_is_checked s <= 1)
    by (unfold one_if_is_checked; destruct (SolutionState_eqb (state s) DONE); lia).
  lia.
Qed.

Lemma StronglySorted_impl {A : Type} (R R' : A -> A -> Prop) l :
  (forall a b, R a b -> R' a b) -> StronglySorted R l -> StronglySorted R' l.
Proof.
  intros H. induction 1 as [|a l Hs IH Hall]; constructor; [exact IH|].
  eapply Forall_impl; [|exact Hall]. auto.
Qed.

(** X8: the rows of [Solution.status] are ordered by exercise id, and in
    each one 1 <= submitted and checked <= submitted. *)
Theorem status_sorted_bounded exs t :
  StronglySorted (fun a b => status_id a <= status_id b) (status exs t) /\
  Forall (fun r => 1 <= submitted r /\ checked r <= submitted r) (status exs t).
Proof.
  split.
  - unfold status. cbv zeta.
    eapply StronglySorted_impl; [|apply sort_by_strongly_sorted].
    + intros a b H. now apply Nat.leb_le.
    + intros a b. rewrite Nat.leb_gt, Nat.leb_le. lia.
    + intros a b c. rewrite !Nat.leb_le. lia.
  - unfold status. cbv zeta. rewrite status_rows_eq.
    apply Forall_forall. intros r Hr.
    apply (Permutation_in _ (sort_by_perm _ _)) in Hr.
    apply in_flat_map in Hr as [ex [_ Hr]].
    set (g := filter _ _) in Hr.
    assert (Hg : forall row, In row g -> exists s, snd row = Some s).
    { intros row Hrow. unfold g in Hrow. apply filter_In in Hrow as [Hrow _].
      apply in_flat_map in Hrow as [ex' [_ Hrow]]. apply in_map_iff in Hrow as [s [<- _]].
      now exists s. }
    assert (Hlen : length (flat_map (fun row => match snd row with
                                                | Some s => [s] | None => [] end) g)
                   = length g).
    { clear Hr. induction g as [|row g IH]; [reflexivity|].
      simpl. destruct (Hg row (or_introl eq_refl)) as [s ->]. simpl. f_equal.
      apply IH. intros row' H. apply Hg. now right. }
    destruct g as [|row g'] eqn:Hgeq; [contradiction|].
    destruct Hr as [<-|[]]. cbn [submitted checked]. rewrite Hlen.
    split; [simpl; lia|]. rewrite <- Hlen. apply sum_one_if_le.
Qed.

Lemma in_skipn_in {A : Type} n (l : list A) x : In x (skipn n l) -> In x l.
Proof.
  intros H. rewrite <- (firstn_skipn n l). apply in_or_app. now right.
Qed.

Lemma in_firstn_in {A : Type} n (l : list A) x : In x (firstn n l) -> In x l.
Proof.
  intros H. rewrite <- (firstn_skipn n l). apply in_or_app. now left.
Qed.

Lemma send_fresh_nodup t user knd msg rel url now :
  NoDup (map notif_id (notifications t)) ->
  Forall (fun r => notif_id r < next_notif_id t) (notifications t) ->
  NoDup (map notif_id (notifications t ++ [snd (send t user knd msg rel url now)])).
Proof.
  intros Hnd Hfresh. rewrite map_app. apply NoDup_app; [exact Hnd | repeat constructor; simpl; tauto|].
  intros x Hx [Hy|[]]. simpl in Hy. subst x.
  apply in_map_iff in Hx as [r [Hr Hin]]. rewrite Forall_forall in Hfresh.
  specialize (Hfresh r Hin). lia.
Qed.

(** The rows of [send]'s table: those of the insert minus the ones the
    hook selects. *)
Lemma send_rows t user knd msg rel url now :
  let inst := snd (send t user knd msg rel url now) in
  notifications (fst (send t user knd msg rel url now)) =
  filter (fun r => negb (existsb (fun o => notif_id o =? notif_id r)
            (skipn MAX_PER_USER (sort_by created_desc_leb
               (filter (fun r => notif_user r =? user) (notifications t ++ [inst]))))))
         (notifications t ++ [inst]).
Proof.
  cbv zeta. unfold send. cbn [fst snd]. unfold on_notification_saved.
  rewrite fold_delete_instance. reflexivity.
Qed.

(** X10: [Notification.send] to one user, with the retention cleanup it
    triggers, leaves every other user's notifications unchanged. *)
Theorem send_keeps_other_users t user knd msg rel url now other :
  NoDup (map notif_id (notifications t)) ->
  Forall (fun r => notif_id r < next_notif_id t) (notifications t) ->
  other <> user ->
  user_notifications (fst (send t user knd msg rel url now)) other
  = user_notifications t other.
Proof.
  intros Hnd Hfresh Hother.
  pose proof (send_fresh_nodup t user knd msg rel url now Hnd Hfresh) as Hnd1.
  unfold user_notifications at 1. rewrite send_rows.
  set (inst := snd (send t user knd msg rel url now)).
  set (D := skipn MAX_PER_USER _).
  rewrite filter_comm, filter_app.
  assert (Hi : filter (fun r => notif_user r =? other) [inst] = []).
  { simpl. destruct (Nat.eqb_spec user other); [congruence | reflexivity]. }
  rewrite Hi, app_nil_r. apply filter_all_true.
  intros r Hr. apply filter_In in Hr as [Hr Hu]. apply Nat.eqb_eq in Hu.
  apply negb_true_iff, not_true_iff_false. rewrite existsb_exists.
  intros [d [Hd Heq]]. apply Nat.eqb_eq in Heq.
  unfold D in Hd. apply in_skipn_in in Hd.
  apply (Permutation_in _ (sort_by_perm _ _)) in Hd.
  apply filter_In in Hd as [Hd Hdu]. apply Nat.eqb_eq in Hdu.
  assert (d = r).
  { apply (NoDup_map_inj notif_id (notifications t ++ [inst])); auto.
    apply in_or_app. now left. }
  subst d. congruence.
Qed.

Lemma send_keeps_other_users_witness :
  NoDup (map notif_id (notifications notif_full)) /\
  Forall (fun r => notif_id r < next_notif_id notif_full) (notifications notif_full) /\
  8 <> 7 /\
  length (notifications (fst (send notif_full 7 0 "hi" None None 11))) = 12 /\
  user_notifications (fst (send notif_full 7 0 "hi" None None 11)) 8
  = user_notifications notif_full 8.
Proof.
  assert (Hnd : NoDup (map notif_id (notifications notif_full))).
  { replace (map notif_id (notifications notif_full)) with (seq 0 12) by reflexivity.
    apply seq_NoDup. }
  assert (Hf : Forall (fun r => notif_id r < next_notif_id notif_full)
                      (notifications notif_full)).
  { apply Forall_forall. intros r Hr. apply Nat.ltb_lt.
    exact (proj1 (forallb_forall (fun r => notif_id r <? 12) (notifications notif_full)) eq_refl r Hr). }
  assert (Hne : 8 <> 7) by discriminate.
  split; [exact Hnd|]. split; [exact Hf|]. split; [exact Hne|].
  split; [vm_compute; reflexivity|].
  exact (send_keeps_other_users notif_full 7 0 "hi" None None 11 8 Hnd Hf Hne).
Defined.

(** The user's rows after [send] are, up to order, the first
    [MAX_PER_USER] of the sorted rows after the insert. *)
Lemma send_user_rows_perm t user knd msg rel url now :
  NoDup (map notif_id (notifications t)) ->
  Forall (fun r => notif_id r < next_notif_id t) (notifications t) ->
  Permutation (user_notifications (fst (send t user knd msg rel url now)) user)
    (firstn MAX_PER_USER (sort_by created_desc_leb
       (user_notifications t user ++ [snd (send t user knd msg rel url now)]))).
Proof.
  intros Hnd Hfresh. rewrite send_user_rows.
  set (U1 := user_notifications t user ++ [snd (send t user knd msg rel url now)]).
  set (S := sort_by created_desc_leb U1).
  set (K := firstn MAX_PER_USER S). set (D := skipn MAX_PER_USER S).
  set (p := fun r => negb (existsb (fun o => notif_id o =? notif_id r) D)).
  assert (HnU : NoDup (map notif_id U1)).
  { unfold U1. rewrite map_app. apply NoDup_app.
    - now apply NoDup_map_filter.
    - constructor; [simpl; tauto | constructor].
    - intros x Hx [Hy|[]]. simpl in Hy. subst x.
      apply in_map_iff in Hx as [r [Hr Hin]].
      unfold user_notifications in Hin. apply filter_In in Hin as [Hin _].
      rewrite Forall_forall in Hfresh. specialize (Hfresh r Hin). lia. }
  assert (HpS : Permutation S U1) by apply sort_by_perm.
  assert (HKD : S = K ++ D) by (symmetry; apply firstn_skipn).
  assert (HnS : NoDup (map notif_id (K ++ D))).
  { rewrite <- HKD. apply (Permutation_NoDup (Permutation_map notif_id (Permutation_sym HpS))).
    exact HnU. }
  transitivity (filter p S); [apply Permutation_filter_same; now symmetry|].
  rewrite HKD, filter_app.
  rewrite (filter_all_false p D).
  - rewrite app_nil_r. rewrite filter_all_true; [reflexivity|].
    intros k Hk. unfold p. apply Bool.negb_true_iff, Bool.not_true_iff_false.
    rewrite existsb_exists. intros [o [Ho Heq]]. apply Nat.eqb_eq in Heq.
    assert (o = k).
    { apply (NoDup_map_inj notif_id (K ++ D)); auto; apply in_or_app; auto. }
    subst o. apply (NoDup_app_disjoint K D k); auto.
    now apply (NoDup_map_inv notif_id).
  - intros d Hd. unfold p. apply Bool.negb_false_iff, existsb_exists.
    exists d. split; [exact Hd | apply Nat.eqb_refl].
Qed.

Lemma sorted_head_max {A : Type} (R : A -> A -> Prop) (f : A -> nat) h l x :
  StronglySorted R (h :: l) -> (forall a b, R a b -> f b <= f a) ->
  In x (h :: l) -> (forall y, In y (h :: l) -> f x <= f y -> y = x) -> h = x.
Proof.
  intros Hs HR Hx Hmax. apply Hmax; [now left|].
  destruct Hx as [->|Hx]; [lia|].
  apply StronglySorted_inv in Hs as [_ Hall]. rewrite Forall_forall in Hall.
  now apply HR, Hall.
Qed.

(** X11: after [send], [fetch] returns the user's notifications newest
    first, and the one just sent comes first when every earlier one was
    created before it. *)
Theorem fetch_after_send t user knd msg rel url now :
  NoDup (map notif_id (notifications t)) ->
  Forall (fun r => notif_id r < next_notif_id t) (notifications t) ->
  let t' := fst (send t user knd msg rel url now) in
  Permutation (fetch t' user) (user_notifications t' user) /\
  StronglySorted (fun a b => created b <= created a) (fetch t' user) /\
  (Forall (fun r => created r < now) (user_notifications t user) ->
   hd_error (fetch t' user) = Some (snd (send t user knd msg rel url now))).
Proof.
  intros Hnd Hfresh. cbv zeta.
  set (inst := snd (send t user knd msg rel url now)).
  pose proof (send_user_rows_perm t user knd msg rel url now Hnd Hfresh) as HP.
  fold inst in HP.
  set (U := user_notifications (fst (send t user knd msg rel url now)) user) in *.
  assert (Hlen : length U <= MAX_PER_USER).
  { rewrite (Permutation_length HP), length_firstn. lia. }
  assert (Hfetch : fetch (fst (send t user knd msg rel url now)) user
                   = sort_by created_desc_leb U).
  { unfold fetch. fold (user_notifications (fst (send t user knd msg rel url now)) user).
    fold U. apply firstn_all2. rewrite (Permutation_length (sort_by_perm _ _)). exact Hlen. }
  assert (Hsorted : forall L, StronglySorted (fun a b => created b <= created a)
                                             (sort_by created_desc_leb L)).
  { intros L. eapply StronglySorted_impl with (R := fun a b => created_desc_leb a b = true).
    - intros a b H. now apply Nat.leb_le.
    - apply sort_by_strongly_sorted; [apply created_desc_leb_total | apply created_desc_leb_trans]. }
  rewrite Hfetch. split; [apply sort_by_perm|]. split; [apply Hsorted|].
  intros Hnew.
  assert (Hcinst : created inst = now) by reflexivity.
  assert (Hmax : forall y, In y (user_notifications t user ++ [inst]) ->
                           created inst <= created y -> y = inst).
  { intros y Hy Hle. apply in_app_or in Hy as [Hy|[<-|[]]]; [|reflexivity].
    rewrite Forall_forall in Hnew. specialize (Hnew y Hy). lia. }
  assert (HinK : In inst U).
  { apply (Permutation_in _ (Permutation_sym HP)).
    pose proof (sort_by_perm created_desc_leb (user_notifications t user ++ [inst])) as HpS.
    pose proof (Hsorted (user_notifications t user ++ [inst])) as HsS.
    destruct (sort_by created_desc_leb (user_notifications t user ++ [inst])) as [|h l] eqn:HS.
    - apply Permutation_nil in HpS. now apply app_eq_nil in HpS as [_ ?].
    - assert (h = inst).
      { apply (sorted_head_max _ created h l inst HsS); [auto| |].
        - apply (Permutation_in _ (Permutation_sym HpS)). apply in_or_app. right. now left.
        - intros y Hy. apply Hmax. now apply (Permutation_in _ HpS). }
      subst h. now left. }
  pose proof (sort_by_perm created_desc_leb U) as HpU.
  pose proof (Hsorted U) as HsU.
  destruct (sort_by created_desc_leb U) as [|h l] eqn:HS.
  - apply Permutation_nil in HpU. subst U. rewrite HpU in HinK. contradiction.
  - simpl. f_equal. apply (sorted_head_max _ created h l inst HsU); [auto| |].
    + now apply (Permutation_in _ (Permutation_sym HpU)).
    + intros y Hy. apply Hmax. apply (Permutation_in _ HpU) in Hy.
      apply (Permutation_in _ HP) in Hy. apply in_firstn_in in Hy.
      now apply (Permutation_in _ (sort_by_perm _ _)) in Hy.
Qed.

Lemma fetch_after_send_witness :
  NoDup (map notif_id (notifications notif_full)) /\
  Forall (fun r => notif_id r < next_notif_id notif_full) (notifications notif_full) /\
  Forall (fun r => created r < 11) (user_notifications notif_full 7) /\
  hd_error (fetch (fst (send notif_full 7 0 "hi" None None 11)) 7)
  = Some (snd (send notif_full 7 0 "hi" None None 11)).
Proof.
  assert (Hnd : NoDup (map notif_id (notifications notif_full))).
  { replace (map notif_id (notifications notif_full)) with (seq 0 12) by reflexivity.
    apply seq_NoDup. }
  assert (Hf : Forall (fun r => notif_id r < next_notif_id notif_full)
                      (notifications notif_full)).
  { apply Forall_forall. intros r Hr. apply Nat.ltb_lt.
    exact (proj1 (forallb_forall (fun r => notif_id r <? 12) (notifications notif_full)) eq_refl r Hr). }
  assert (Hc : Forall (fun r => created r < 11) (user_notifications notif_full 7)).
  { apply Forall_forall. intros r Hr. apply Nat.ltb_lt.
    exact (proj1 (forallb_forall (fun r => created r <? 11) (user_notifications notif_full 7)) eq_refl r Hr). }
  split; [exact Hnd|]. split; [exact Hf|]. split; [exact Hc|].
  exact (proj2 (proj2 (fetch_after_send notif_full 7 0 "hi" None None 11 Hnd Hf)) Hc).
Defined.

(** With every row carrying [self]'s id owned by [self]'s user, the rows
    of that user after the update of [read] are as many as before. *)
Lemma read_user_rows_length rows self self' :
  notif_user self' = notif_user self ->
  Forall (fun r => notif_id r = notif_id self -> notif_user r = notif_user self) rows ->
  length (filter (fun r => notif_user r =? notif_user self)
            (map (fun r => if notif_id r =? notif_id self then self' else r) rows))
  = length (filter (fun r => notif_user r =? notif_user self) rows).
Proof.
  intros Hu Hown. induction rows as [|r rows IH]; [reflexivity|].
  apply Forall_cons_iff in Hown as [Hr Hown]. simpl.
  destruct (Nat.eqb_spec (notif_id r) (notif_id self)) as [E|E].
  - rewrite Hu, (Hr E), Nat.eqb_refl. simpl. now rewrite IH.
  - destruct (notif_user r =? notif_user self); simpl; now rewrite IH.
Qed.

(** Below the retention limit the hook fired by [read] deletes nothing. *)
Lemma read_no_eviction t self :
  Forall (fun r => notif_id r = notif_id self -> notif_user r = notif_user self)
         (notifications t) ->
  length (user_notifications t (notif_user self)) <= MAX_PER_USER ->
  fst (read t self) =
  mkNotificationTable
    (map (fun r => if notif_id r =? notif_id self
                   then mkNotification (notif_id self) (notif_user self) (created self)
                                       (kind self) (message self) (related_id self)
                                       (action_url self) true
                   else r) (notifications t))
    (next_notif_id t).
Proof.
  intros Hown Hlen. unfold read, on_notification_saved, old_notifications. cbn [fst].
  rewrite skipn_all2; [reflexivity|].
  rewrite (Permutation_length (sort_by_perm created_desc_leb _)). cbn [notifications notif_user].
  rewrite read_user_rows_length by (reflexivity || exact Hown). exact Hlen.
Qed.

(** X9: [Notification.read], when [self]'s user has at most MAX_PER_USER
    rows and every row with [self]'s id is that user's, marks the rows with
    the notification's id as viewed (keeping user and message), keeps all
    other rows, the row count and the id counter (the [post_save] hook it
    fires deletes nothing), and reports whether any row had that id. *)
Theorem read_spec t self :
  Forall (fun r => notif_id r = notif_id self -> notif_user r = notif_user self)
         (notifications t) ->
  length (user_notifications t (notif_user self)) <= MAX_PER_USER ->
  (~ In (notif_id self) (map notif_id (notifications t)) -> read t self = (t, false)) /\
  (In (notif_id self) (map notif_id (notifications t)) ->
   snd (read t self) = true /\
   (forall r, In r (notifications (fst (read t self))) -> notif_id r = notif_id self ->
      viewed r = true /\ notif_user r = notif_user self /\ message r = message self)) /\
  (forall r, In r (notifications t) -> notif_id r <> notif_id self ->
   In r (notifications (fst (read t self)))) /\
  length (notifications (fst (read t self))) = length (notifications t) /\
  next_notif_id (fst (read t self)) = next_notif_id t.
Proof.
  intros Hown Hlen.
  pose proof (read_no_eviction t self Hown Hlen) as Hfst.
  split; [|split; [|split; [|split]]].
  - intros Hin. apply injective_projections; cbn [fst snd].
    + rewrite Hfst. destruct t as [rows next]. cbn [notifications next_notif_id] in *.
      clear Hfst Hown Hlen. f_equal.
      induction rows as [|r rows IH]; simpl in *; [reflexivity|].
      destruct (Nat.eqb_spec (notif_id r) (notif_id self)) as [E|E]; [tauto|].
      f_equal. apply IH. tauto.
    + unfold read. cbn [snd]. apply negb_false_iff, Nat.eqb_eq.
      destruct t as [rows next]. cbn [notifications] in *. clear Hfst Hown Hlen.
      induction rows as [|r rows IH]; simpl in *; [reflexivity|].
      destruct (Nat.eqb_spec (notif_id r) (notif_id self)) as [E|E]; [tauto|].
      apply IH. tauto.
  - intros Hin. split.
    + unfold read. cbn [snd]. apply negb_true_iff, Nat.eqb_neq. intros H0.
      apply length_zero_iff_nil in H0. apply in_map_iff in Hin as [r [Hr Hin]].
      assert (In r (filter (fun r => notif_id r =? notif_id self) (notifications t)))
        by (apply filter_In; split; [exact Hin | now apply Nat.eqb_eq]).
      rewrite H0 in H. contradiction.
    + intros r Hr Hid. rewrite Hfst in Hr. cbn [notifications] in Hr.
      apply in_map_iff in Hr as [r0 [Hr0 _]].
      destruct (Nat.eqb_spec (notif_id r0) (notif_id self)); subst r; simpl in *;
        [repeat split | congruence].
  - intros r Hr Hne. rewrite Hfst. cbn [notifications]. apply in_map_iff.
    exists r. split; [|exact Hr].
    destruct (Nat.eqb_spec (notif_id r) (notif_id self)); [congruence | reflexivity].
  - rewrite Hfst. cbn [notifications]. apply length_map.
  - rewrite Hfst. reflexivity.
Qed.

Lemma read_spec_witness :
  Forall (fun r => notif_id r = notif_id notif_three -> notif_user r = notif_user notif_three)
         (notifications notif_full) /\
  length (user_notifications notif_full (notif_user notif_three)) <= MAX_PER_USER /\
  snd (read notif_full notif_three) = true /\
  length (notifications (fst (read notif_full notif_three))) = 12.
Proof.
  assert (Hown : Forall (fun r => notif_id r = notif_id notif_three ->
                                  notif_user r = notif_user notif_three)
                        (notifications notif_full)).
  { unfold notif_full, notif_three. simpl.
    repeat constructor; simpl; intros H; first [reflexivity | discriminate H]. }
  assert (Hlen : length (user_notifications notif_full (notif_user notif_three))
                 <= MAX_PER_USER) by (vm_compute; lia).
  assert (Hin : In (notif_id notif_three) (map notif_id (notifications notif_full))).
  { simpl. tauto. }
  pose proof (read_spec notif_full notif_three Hown Hlen) as [_ [Hr [_ [Hl _]]]].
  split; [exact Hown|]. split; [exact Hlen|].
  split; [exact (proj1 (Hr Hin))|]. rewrite Hl. reflexivity.
Defined.

Lemma insert_by_app_last {A : Type} (leb : A -> A -> bool) x L m :
  leb x m = true -> insert_by leb x (L ++ [m]) = insert_by leb x L ++ [m].
Proof.
  intros H. induction L as [|y L IH]; simpl; [now rewrite H|].
  destruct (leb x y); [reflexivity|]. now rewrite IH.
Qed.

Lemma sort_by_app_last {A : Type} (leb : A -> A -> bool) L m :
  (forall x, In x L -> leb x m = true) -> sort_by leb (L ++ [m]) = sort_by leb L ++ [m].
Proof.
  induction L as [|x L IH]; intros H; [reflexivity|].
  simpl. rewrite IH by (intros y Hy; apply H; now right).
  apply insert_by_app_last. apply H. now left.
Qed.

(** X3: after [create_solution] on a well-formed table whose earlier
    versions of the pair were all submitted before [now],
    [ordered_versions] of the new row lists the earlier versions, all
    OLD_SOLUTION, and then the new CREATED row last. *)
Theorem ordered_versions_after_create t e u now js :
  table_wf t ->
  Forall (fun r => submission_timestamp r < now) (pair_rows t e u) ->
  let '(t', instance) := create_solution t e u now js in
  exists older,
    ordered_versions t' instance = older ++ [instance] /\
    Permutation older (map (fun r => with_state r OLD_SOLUTION) (pair_rows t e u)) /\
    Forall (fun r => state r = OLD_SOLUTION) older /\
    state instance = CREATED.
Proof.
  intros Hwf Hts.
  pose proof (pair_rows_create_solution t e u now js Hwf) as Hp.
  destruct (create_solution t e u now js) as [t' instance] eqn:Hc.
  assert (Hi : instance = mkSolution (next_solution_id t) e u CREATED now js).
  { change instance with (snd (t', instance)). rewrite <- Hc. reflexivity. }
  simpl in Hp. subst instance.
  exists (sort_by (fun a b => submission_timestamp a <=? submission_timestamp b)
                  (map (fun r => with_state r OLD_SOLUTION) (pair_rows t e u))).
  unfold ordered_versions. cbn [exercise solver]. fold (pair_rows t' e u). rewrite Hp.
  split; [|split; [apply sort_by_perm|split; [|reflexivity]]].
  - apply sort_by_app_last. intros x Hx. apply in_map_iff in Hx as [r [<- Hr]].
    rewrite Forall_forall in Hts. specialize (Hts r Hr). apply Nat.leb_le. simpl. lia.
  - eapply Permutation_Forall; [symmetry; apply sort_by_perm|].
    apply Forall_map. apply Forall_forall. reflexivity.
Qed.

Lemma ordered_versions_after_create_witness :
  table_wf table_one_done /\
  Forall (fun r => submission_timestamp r < 5) (pair_rows table_one_done 1 1) /\
  let '(t', instance) := create_solution table_one_done 1 1 5 "print(2)" in
  length (ordered_versions t' instance) = 2.
Proof.
  assert (Hwf : table_wf table_one_done).
  { split; simpl; [repeat constructor | constructor; [simpl; tauto | constructor]]. }
  assert (Hts : Forall (fun r => submission_timestamp r < 5) (pair_rows table_one_done 1 1)).
  { simpl. repeat constructor. }
  split; [exact Hwf|]. split; [exact Hts|].
  pose proof (ordered_versions_after_create table_one_done 1 1 5 "print(2)" Hwf Hts) as H.
  destruct (create_solution table_one_done 1 1 5 "print(2)") as [t' instance].
  destruct H as [older [Ho [Hp _]]].
  rewrite Ho, length_app. rewrite (Permutation_length Hp). reflexivity.
Defined.

Lemma StronglySorted_filter {A : Type} (R : A -> A -> Prop) (p : A -> bool) l :
  StronglySorted R l -> StronglySorted R (filter p l).
Proof.
  induction 1 as [|a l Hs IH Hall]; simpl; [constructor|].
  destruct (p a); [|exact IH]. constructor; [exact IH|].
  rewrite Forall_forall in *. intros x Hx. apply filter_In in Hx as [Hx _]. auto.
Qed.

Lemma get_objects_sorted_perm exs fetch_archived :
  StronglySorted (fun a b => ex_order a <= ex_order b) (get_objects exs fetch_archived) /\
  Permutation (get_objects exs fetch_archived)
    (if fetch_archived then exs else filter (fun e => negb (is_archived (ex_row e))) exs).
Proof.
  assert (Hs : StronglySorted (fun a b => ex_order a <= ex_order b)
                 (sort_by (fun a b => ex_order a <=? ex_order b) exs)).
  { eapply StronglySorted_impl; [|apply sort_by_strongly_sorted].
    - intros a b H. now apply Nat.leb_le.
    - intros a b. rewrite Nat.leb_gt, Nat.leb_le. lia.
    - intros a b c. rewrite !Nat.leb_le. lia. }
  unfold get_objects. cbv zeta. destruct fetch_archived.
  - split; [exact Hs | apply sort_by_perm].
  - split; [now apply StronglySorted_filter|].
    apply Permutation_filter_same, sort_by_perm.
Qed.

Lemma dict_set_fresh {A : Type} k (v : A) d :
  ~ In k (map fst d) -> dict_set k v d = d ++ [(k, v)].
Proof.
  induction d as [|[k' v'] d IH]; simpl; intros H; [reflexivity|].
  destruct (Nat.eqb_spec k' k) as [E|E]; [tauto|]. f_equal. apply IH. tauto.
Qed.

Lemma as_dicts_fold exs acc :
  NoDup (map fst acc ++ map ex_key exs) ->
  fold_left (fun d e => dict_set (ex_key e) (as_dict e) d) exs acc
  = acc ++ map (fun e => (ex_key e, as_dict e)) exs.
Proof.
  revert acc. induction exs as [|e exs IH]; intros acc Hnd; simpl; [now rewrite app_nil_r|].
  rewrite dict_set_fresh.
  - rewrite IH, <- app_assoc; [reflexivity|]. rewrite map_app, <- app_assoc. exact Hnd.
  - intros Hin. apply (NoDup_app_disjoint _ _ _ Hnd Hin). now left.
Qed.

Lemma as_dicts_eq exs :
  NoDup (map ex_key exs) -> as_dicts exs = map (fun e => (ex_key e, as_dict e)) exs.
Proof. intros Hnd. unfold as_dicts. now rewrite as_dicts_fold. Qed.

Lemma dict_get_map {A : Type} (db : list ExerciseRecord) (F : ExerciseRecord -> A) e0 :
  NoDup (map ex_key db) -> In e0 db ->
  dict_get (ex_key e0) (map (fun e => (ex_key e, F e)) db) = Some (F e0).
Proof.
  induction db as [|e db IH]; simpl; intros Hnd Hin; [contradiction|].
  inversion Hnd as [|? ? Hnotin Hnd']; subst.
  destruct Hin as [<-|Hin]; [now rewrite Nat.eqb_refl|].
  destruct (Nat.eqb_spec (ex_key e) (ex_key e0)) as [E|E].
  - exfalso. apply Hnotin. rewrite E. now apply in_map.
  - now apply IH.
Qed.

Lemma dict_set_map {A : Type} (db : list ExerciseRecord) (F : ExerciseRecord -> A) e0 v :
  NoDup (map ex_key db) -> In e0 db ->
  dict_set (ex_key e0) v (map (fun e => (ex_key e, F e)) db)
  = map (fun e => (ex_key e, if ex_key e =? ex_key e0 then v else F e)) db.
Proof.
  induction db as [|e db IH]; simpl; intros Hnd Hin; [contradiction|].
  inversion Hnd as [|? ? Hnotin Hnd']; subst.
  destruct (Nat.eqb_spec (ex_key e) (ex_key e0)) as [E|E].
  - f_equal; [now rewrite E|]. apply map_ext_in. intros x Hx.
    destruct (Nat.eqb_spec (ex_key x) (ex_key e0)) as [E'|E']; [|reflexivity].
    exfalso. apply Hnotin. rewrite E, <- E'. now apply in_map.
  - destruct Hin as [<-|Hin]; [congruence|]. f_equal. now apply IH.
Qed.

Lemma find_app {A : Type} (f : A -> bool) l1 l2 :
  find f (l1 ++ l2) = match find f l1 with Some x => Some x | None => find f l2 end.
Proof.
  induction l1 as [|a l1 IH]; simpl; [reflexivity|]. destruct (f a); [reflexivity|exact IH].
Qed.

Lemma Forall2_map_self {A B : Type} (P : A -> B -> Prop) (f : A -> B) l :
  (forall x, In x l -> P x (f x)) -> Forall2 P l (map f l).
Proof.
  induction l as [|x l IH]; intros H; simpl; constructor.
  - apply H. now left.
  - apply IH. intros y Hy. apply H. now right.
Qed.

Lemma of_user_fold checkers db L P :
  NoDup (map ex_key db) ->
  (forall s, In s L -> exists e, In e db /\ ex_key e = exercise s) ->
  fold_left (of_user_step checkers) L
    (Some (map (fun e => (ex_key e, of_user_entry checkers e
                                      (find (fun s => exercise s =? ex_key e) P))) db))
  = Some (map (fun e => (ex_key e, of_user_entry checkers e
                                      (find (fun s => exercise s =? ex_key e) (P ++ L)))) db).
Proof.
  intros Hnd. revert P. induction L as [|s L IH]; intros P HL; simpl; [now rewrite app_nil_r|].
  destruct (HL s (or_introl eq_refl)) as [e0 [He0 Hk]].
  replace (P ++ s :: L) with ((P ++ [s]) ++ L) by now rewrite <- app_assoc.
  rewrite <- IH by (intros s' Hs'; apply HL; now right).
  f_equal. unfold of_user_step. rewrite <- Hk, dict_get_map by assumption.
  destruct (find (fun s0 => exercise s0 =? ex_key e0) P) as [x|] eqn:Hf.
  - simpl. f_equal. apply map_ext. intros e. f_equal. f_equal.
    rewrite find_app.
    destruct (find (fun s0 => exercise s0 =? ex_key e) P) eqn:Hfe; [reflexivity|].
    simpl. destruct (Nat.eqb_spec (exercise s) (ex_key e)) as [E|E]; [|reflexivity].
    rewrite <- Hk in E. rewrite <- E in Hfe. congruence.
  - cbn [of_user_entry as_dict d_solution_id d_exercise_id d_exercise_name d_is_archived
         d_notebook d_due_date d_checker].
    rewrite dict_set_map by assumption. f_equal. apply map_ext_in. intros e He. f_equal.
    rewrite find_app.
    destruct (Nat.eqb_spec (ex_key e) (ex_key e0)) as [E|E].
    + assert (e = e0) by (apply (NoDup_map_inj ex_key db); auto). subst e.
      rewrite Hf. simpl. rewrite <- Hk, Nat.eqb_refl. simpl.
      destruct (is_checked s); [|reflexivity].
      destruct (checker_fullname checkers s); reflexivity.
    + destruct (find (fun s0 => exercise s0 =? ex_key e) P); [reflexivity|]. simpl.
      destruct (Nat.eqb_spec (exercise s) (ex_key e)) as [E'|E']; [|reflexivity].
      congruence.
Qed.

Lemma find_sorted_max {A : Type} (R : A -> A -> Prop) (g : A -> nat) (p : A -> bool) l x :
  StronglySorted R l -> (forall a b, R a b -> g b <= g a) ->
  find p l = Some x -> forall y, In y l -> p y = true -> g y <= g x.
Proof.
  intros Hs HR. induction Hs as [|a l Hs IH Hall]; simpl; [discriminate|].
  intros Hf y Hy Hpy. destruct (p a) eqn:Hpa.
  - injection Hf as <-. destruct Hy as [<-|Hy]; [lia|].
    rewrite Forall_forall in Hall. now apply HR, Hall.
  - destruct Hy as [<-|Hy]; [congruence|]. now apply IH.
Qed.

(** X12: [Exercise.get_objects] returns the exercises ordered by [order]:
    all of them when archived ones are fetched, the non-archived ones
    otherwise. *)
Theorem get_objects_spec exs fetch_archived :
  StronglySorted (fun a b => ex_order a <= ex_order b) (get_objects exs fetch_archived) /\
  Permutation (get_objects exs fetch_archived)
    (if fetch_archived then exs else filter (fun e => negb (is_archived (ex_row e))) exs).
Proof. exact (get_objects_sorted_perm exs fetch_archived). Qed.

(** X13: with distinct exercise ids, [Exercise.of_user] never fails; it
    has one entry per exercise of [get_objects], in that order, whose
    solution is the user's most recently submitted one for the exercise
    (none when there is none), with its checked flag; with [with_archived]
    false no entry is archived. *)
Theorem of_user_newest exs t checkers user with_archived :
  NoDup (map ex_key exs) ->
  exists entries,
    of_user exs t checkers user with_archived = Some entries /\
    Forall2 (fun e d =>
      d_exercise_id d = ex_key e /\ d_is_archived d = is_archived (ex_row e) /\
      (d_solution_id d = None <->
       ~ exists s, In s (solutions t) /\ exercise s = ex_key e /\ solver s = user) /\
      (forall id, d_solution_id d = Some id ->
       exists s, In s (solutions t) /\ sol_id s = id /\ exercise s = ex_key e /\
         solver s = user /\ d_is_checked d = Some (is_checked s) /\
         forall s', In s' (solutions t) -> exercise s' = ex_key e -> solver s' = user ->
           submission_timestamp s' <= submission_timestamp s))
      (get_objects exs with_archived) entries /\
    (with_archived = false -> Forall (fun d => d_is_archived d = false) entries).
Proof.
  intros Hnd.
  set (db := get_objects exs with_archived).
  destruct (get_objects_sorted_perm exs with_archived) as [_ Hperm]. fold db in Hperm.
  assert (Hnddb : NoDup (map ex_key db)).
  { eapply Permutation_NoDup; [apply Permutation_map; symmetry; exact Hperm|].
    destruct with_archived; [exact Hnd | now apply NoDup_map_filter]. }
  set (sel := fun s => existsb (fun e => ex_key e =? exercise s) db && (solver s =? user)).
  set (sols := sort_by (fun a b => submission_timestamp b <=? submission_timestamp a)
                       (filter sel (solutions t))).
  assert (Hsols : forall s, In s sols <-> In s (solutions t) /\ sel s = true).
  { intros s. unfold sols. split.
    - intros H. apply (Permutation_in _ (sort_by_perm _ _)) in H. now apply filter_In.
    - intros H. apply (Permutation_in _ (Permutation_sym (sort_by_perm _ _))).
      now apply filter_In. }
  assert (Hsorted : StronglySorted (fun a b => submission_timestamp b <= submission_timestamp a)
                                   sols).
  { eapply StronglySorted_impl; [|apply sort_by_strongly_sorted].
    - intros a b H. now apply Nat.leb_le.
    - intros a b. rewrite Nat.leb_gt, Nat.leb_le. lia.
    - intros a b c. rewrite !Nat.leb_le. lia. }
  assert (Hof : of_user exs t checkers user with_archived
                = Some (map (fun e => of_user_entry checkers e
                                        (find (fun s => exercise s =? ex_key e) sols)) db)).
  { unfold of_user. cbv zeta. fold db. fold sel. fold sols.
    rewrite as_dicts_eq by exact Hnddb.
    pose proof (of_user_fold checkers db sols [] Hnddb) as Hf. simpl in Hf.
    rewrite Hf.
    - simpl. f_equal. rewrite map_map. reflexivity.
    - intros s Hs. apply Hsols in Hs as [_ Hs]. unfold sel in Hs.
      apply andb_true_iff in Hs as [Hs _]. apply existsb_exists in Hs as [e [He Hk]].
      exists e. split; [exact He | now apply Nat.eqb_eq]. }
  assert (Hsel : forall e s, In e db -> In s (solutions t) -> exercise s = ex_key e ->
                  solver s = user -> In s sols).
  { intros e s He Hs Hx Hu. apply Hsols. split; [exact Hs|]. unfold sel.
    apply andb_true_iff. split; [|now apply Nat.eqb_eq].
    apply existsb_exists. exists e. split; [exact He|]. now apply Nat.eqb_eq. }
  eexists. split; [exact Hof|]. split.
  - assert (Hall : forall e, In e db ->
      let d := of_user_entry checkers e (find (fun s => exercise s =? ex_key e) sols) in
      d_exercise_id d = ex_key e /\ d_is_archived d = is_archived (ex_row e) /\
      (d_solution_id d = None <->
       ~ exists s, In s (solutions t) /\ exercise s = ex_key e /\ solver s = user) /\
      (forall id, d_solution_id d = Some id ->
       exists s, In s (solutions t) /\ sol_id s = id /\ exercise s = ex_key e /\
         solver s = user /\ d_is_checked d = Some (is_checked s) /\
         forall s', In s' (solutions t) -> exercise s' = ex_key e -> solver s' = user ->
           submission_timestamp s' <= submission_timestamp s)).
    { intros e He. cbv zeta.
      destruct (find (fun s => exercise s =? ex_key e) sols) as [x|] eqn:Hf.
      - destruct (find_some _ _ Hf) as [Hx Hxe]. apply Nat.eqb_eq in Hxe.
        apply Hsols in Hx as [Hx Hxs]. unfold sel in Hxs.
        apply andb_true_iff in Hxs as [_ Hxu]. apply Nat.eqb_eq in Hxu.
        cbn [of_user_entry d_exercise_id d_is_archived d_solution_id d_is_checked].
        split; [reflexivity|]. split; [reflexivity|]. split.
        + split; [discriminate|]. intros Hn. exfalso. apply Hn. now exists x.
        + intros id Hid. injection Hid as <-. exists x.
          do 5 (split; [auto|]).
          intros s' Hs' Hs'e Hs'u.
          apply (find_sorted_max (fun a b => submission_timestamp b <= submission_timestamp a)
                   submission_timestamp (fun s => exercise s =? ex_key e) sols x Hsorted);
            [auto | exact Hf | eapply Hsel; eauto | now apply Nat.eqb_eq].
      - cbn [of_user_entry as_dict d_exercise_id d_is_archived d_solution_id].
        split; [reflexivity|]. split; [reflexivity|]. split; [|discriminate].
        split; [|reflexivity]. intros _ [s [Hs [Hse Hsu]]].
        pose proof (find_none _ _ Hf s (Hsel e s He Hs Hse Hsu)) as H.
        cbv beta in H. rewrite Hse, Nat.eqb_refl in H. discriminate. }
    apply Forall2_map_self. exact Hall.
  - intros ->. rewrite Forall_forall. intros d Hd. apply in_map_iff in Hd as [e [<- He]].
    apply (Permutation_in _ Hperm) in He. apply filter_In in He as [_ He].
    destruct (find (fun s => exercise s =? ex_key e) sols); simpl;
      now apply negb_true_iff.
Qed.

Lemma of_user_newest_witness :
  NoDup (map ex_key exercise_records) /\
  of_user exercise_records of_user_table of_user_checkers 4 false <> None.
Proof.
  assert (Hnd : NoDup (map ex_key exercise_records)).
  { simpl. constructor; [simpl; intuition discriminate|].
    constructor; [simpl; intuition discriminate|]. constructor; [simpl; tauto | constructor]. }
  split; [exact Hnd|].
  destruct (of_user_newest exercise_records of_user_table of_user_checkers 4 false Hnd)
    as [entries [H _]].
  rewrite H. discriminate.
Defined.



Open Scope string_scope.

Lemma existsb_orb {A : Type} (f g : A -> bool) l :
  existsb (fun x => f x || g x) l = existsb f l || existsb g l.
Proof.
  induction l as [|a l IH]; simpl; [reflexivity|]. rewrite IH.
  destruct (f a), (g a), (existsb f l), (existsb g l); reflexivity.
Qed.

Lemma create_basic_roles_eq t :
  create_basic_roles t =
  if existsb (fun r => basic_role_name (role_name r)) (roles t) then Err IntegrityError
  else Ok (mkRoleTable (roles t ++ [mkRole (next_role_id t) "Student";
                                    mkRole (S (next_role_id t)) "Staff";
                                    mkRole (S (S (next_role_id t))) "Administrator"])
                       (S (S (S (next_role_id t))))).
Proof.
  unfold create_basic_roles, basic_role_name. simpl. unfold role_create. simpl.
  rewrite !existsb_orb.
  destruct (existsb (fun r => role_name r =? "Student") (roles t)); [reflexivity|]. simpl.
  rewrite existsb_app. simpl.
  destruct (existsb (fun r => role_name r =? "Staff") (roles t)); [reflexivity|]. simpl.
  rewrite !existsb_app. simpl.
  destruct (existsb (fun r => role_name r =? "Administrator") (roles t)); [reflexivity|].
  simpl. now rewrite <- !app_assoc.
Qed.

(** X14: [create_basic_roles] raises IntegrityError when any of the names
    Student, Staff, Administrator is taken, and otherwise appends the
    three roles in that order with consecutive ids. *)
Theorem create_basic_roles_spec t :
  create_basic_roles t =
  if existsb (fun r => basic_role_name (role_name r)) (roles t) then Err IntegrityError
  else Ok (mkRoleTable (roles t ++ [mkRole (next_role_id t) "Student";
                                    mkRole (S (next_role_id t)) "Staff";
                                    mkRole (S (S (next_role_id t))) "Administrator"])
                       (S (S (S (next_role_id t))))).
Proof. exact (create_basic_roles_eq t). Qed.

(** X15: after [create_basic_roles] succeeds, calling it again raises
    IntegrityError, [Role.by_name] finds the role of every member whose
    name it upper-cases to, and never raises DoesNotExist. *)
Theorem create_basic_roles_then_by_name t t' :
  create_basic_roles t = Ok t' ->
  create_basic_roles t' = Err IntegrityError /\
  (forall n m, String.prefix "_" n = false -> upper n = role_member_name m ->
     exists r, by_name t' n = Ok r /\ In r (roles t') /\ role_name r = role_value m) /\
  (forall n, by_name t' n <> Err DoesNotExist).
Proof.
  rewrite create_basic_roles_eq.
  destruct (existsb (fun r => basic_role_name (role_name r)) (roles t)) eqn:Hex;
    [discriminate|].
  intros H. injection H as <-.
  assert (Hfind : forall m, exists r,
             find (fun r => role_name r =? role_value m)
               (roles t ++ [mkRole (next_role_id t) "Student";
                            mkRole (S (next_role_id t)) "Staff";
                            mkRole (S (S (next_role_id t))) "Administrator"]) = Some r /\
             In r (roles t ++ [mkRole (next_role_id t) "Student";
                               mkRole (S (next_role_id t)) "Staff";
                               mkRole (S (S (next_role_id t))) "Administrator"]) /\
             role_name r = role_value m).
  { intros m.
    destruct (find (fun r => role_name r =? role_value m) _) as [r|] eqn:Hf.
    - exists r. destruct (find_some _ _ Hf) as [Hin Hr]. apply String.eqb_eq in Hr. auto.
    - exfalso. rewrite find_app in Hf.
      destruct (find (fun r => role_name r =? role_value m) (roles t)); [discriminate|].
      destruct m; discriminate. }
  split; [|split].
  - rewrite create_basic_roles_eq. simpl. rewrite existsb_app. simpl.
    now rewrite orb_true_r.
  - intros n m Hp Hu. unfold by_name. rewrite Hp, Hu.
    assert (Hg : role_getattr (role_member_name m) = Ok m) by (destruct m; reflexivity).
    rewrite Hg. destruct (Hfind m) as [r [Hf [Hin Hr]]]. exists r. simpl. now rewrite Hf.
  - intros n. unfold by_name. destruct (String.prefix "_" n); [discriminate|].
    destruct (role_getattr (upper n)) as [m|e] eqn:Hg.
    2:{ unfold role_getattr in Hg. destruct (find _ all_role_options); [discriminate|].
        injection Hg as <-. discriminate. }
    destruct (Hfind m) as [r [Hf _]]. simpl. now rewrite Hf.
Qed.

Lemma create_basic_roles_then_by_name_witness :
  create_basic_roles empty_roles = Ok (mkRoleTable [mkRole 1 "Student"; mkRole 2 "Staff";
                                                    mkRole 3 "Administrator"] 4) /\
  create_basic_roles (mkRoleTable [mkRole 1 "Student"; mkRole 2 "Staff";
                                   mkRole 3 "Administrator"] 4) = Err IntegrityError.
Proof.
  split; [reflexivity|].
  apply (create_basic_roles_then_by_name empty_roles); reflexivity.
Defined.

Close Scope string_scope.

Lemma find_map_ext_in {A : Type} (f g : A -> bool) (h : A -> A) l :
  (forall x, In x l -> f (h x) = g x) ->
  find f (map h l) = option_map h (find g l).
Proof.
  induction l as [|a l IH]; simpl; intros H; [reflexivity|].
  rewrite (H a (or_introl eq_refl)). destruct (g a); [reflexivity|].
  apply IH. intros x Hx. apply H. now right.
Qed.

(** X16: on a well-formed table, [get_or_create_exercise_test] keeps the
    table well-formed (one row per exercise), after it [get_by_exercise]
    returns the returned row with the new code, other exercises are
    unaffected, and an existing row keeps its id. *)
Theorem get_or_create_exercise_test_spec t e code :
  et_table_wf t ->
  let '(t', instance) := get_or_create_exercise_test t e code in
  et_table_wf t' /\
  get_by_exercise t' e = Some instance /\
  et_exercise instance = e /\ et_code instance = code /\
  (forall e', e' <> e -> get_by_exercise t' e' = get_by_exercise t e') /\
  (forall old, get_by_exercise t e = Some old -> et_id instance = et_id old) /\
  (get_by_exercise t e = None -> et_id instance = next_et_id t).
Proof.
  intros [Hfresh [Hids Hexs]]. unfold get_or_create_exercise_test.
  destruct (get_by_exercise t e) as [old|] eqn:Hg.
  - unfold get_by_exercise in Hg.
    destruct (find_some _ _ Hg) as [Hold He]. apply Nat.eqb_eq in He.
    set (repl := fun r => if et_id r =? et_id old
                          then mkExerciseTest (et_id old) (et_exercise old) code else r).
    assert (Hid : forall r, et_id (repl r) = et_id r).
    { intros r. unfold repl. destruct (Nat.eqb_spec (et_id r) (et_id old)); auto. }
    assert (Hex : forall r, In r (exercise_tests t) -> et_exercise (repl r) = et_exercise r).
    { intros r Hr. unfold repl. destruct (Nat.eqb_spec (et_id r) (et_id old)) as [E|E];
        [|reflexivity].
      now rewrite (NoDup_map_inj et_id _ r old Hids Hr Hold E). }
    assert (Hfind : forall e', get_by_exercise (mkExerciseTestTable
                       (map repl (exercise_tests t)) (next_et_id t)) e'
                     = option_map repl (get_by_exercise t e')).
    { intros e'. unfold get_by_exercise. simpl. apply find_map_ext_in.
      intros x Hx. now rewrite Hex. }
    fold repl. split; [|split; [|split; [|split; [|split; [|split]]]]].
    + unfold et_table_wf. simpl. split; [|split].
      * rewrite Forall_map. eapply Forall_impl; [|exact Hfresh]. intros r Hr.
        now rewrite Hid.
      * rewrite map_map. erewrite map_ext; [exact Hids|]. exact Hid.
      * rewrite map_map. erewrite map_ext_in; [exact Hexs|]. exact Hex.
    + rewrite Hfind. unfold get_by_exercise. rewrite Hg. simpl. unfold repl.
      now rewrite Nat.eqb_refl.
    + exact He.
    + reflexivity.
    + intros e' Hne. rewrite Hfind.
      destruct (get_by_exercise t e') as [r|] eqn:Hr; [|reflexivity]. simpl. f_equal.
      unfold repl. destruct (Nat.eqb_spec (et_id r) (et_id old)) as [E|E]; [|reflexivity].
      exfalso. unfold get_by_exercise in Hr.
      destruct (find_some _ _ Hr) as [Hrin Hre]. apply Nat.eqb_eq in Hre.
      rewrite (NoDup_map_inj et_id _ r old Hids Hrin Hold E) in Hre. congruence.
    + intros o Ho. injection Ho as <-. reflexivity.
    + discriminate.
  - set (inst := mkExerciseTest (next_et_id t) e code).
    assert (Hfind : forall e', get_by_exercise (mkExerciseTestTable
                       (exercise_tests t ++ [inst]) (S (next_et_id t))) e'
                     = match get_by_exercise t e' with
                       | Some r => Some r
                       | None => if e =? e' then Some inst else None end).
    { intros e'. unfold get_by_exercise. simpl. rewrite find_app. simpl.
      destruct (find _ (exercise_tests t)); [reflexivity|].
      now rewrite Nat.eqb_sym. }
    split; [|split; [|split; [|split; [|split; [|split]]]]].
    + unfold et_table_wf. simpl. split; [|split].
      * apply Forall_app. split.
        -- eapply Forall_impl; [|exact Hfresh]. simpl. intros r Hr. lia.
        -- constructor; [simpl; lia | constructor].
      * rewrite map_app. apply NoDup_app; [exact Hids | repeat constructor; auto|].
        intros x Hx [<-|[]]. rewrite Forall_forall in Hfresh.
        apply in_map_iff in Hx as [r [Hr Hrin]]. specialize (Hfresh r Hrin). simpl in *. lia.
      * rewrite map_app. apply NoDup_app; [exact Hexs | repeat constructor; auto|].
        intros x Hx [<-|[]]. apply in_map_iff in Hx as [r [Hr Hrin]].
        unfold get_by_exercise in Hg. pose proof (find_none _ _ Hg r Hrin) as H.
        simpl in H. rewrite Hr, Nat.eqb_refl in H. discriminate.
    + rewrite Hfind, Hg, Nat.eqb_refl. reflexivity.
    + reflexivity.
    + reflexivity.
    + intros e' Hne. rewrite Hfind.
      destruct (get_by_exercise t e'); [reflexivity|].
      destruct (Nat.eqb_spec e e'); [congruence | reflexivity].
    + discriminate.
    + intros _. reflexivity.
Qed.

Lemma get_or_create_exercise_test_spec_witness :
  et_table_wf exercise_test_table /\
  get_by_exercise (fst (get_or_create_exercise_test exercise_test_table 2 "def test_two(): pass"%string))
    2 = Some (snd (get_or_create_exercise_test exercise_test_table 2 "def test_two(): pass"%string)).
Proof.
  assert (Hwf : et_table_wf exercise_test_table).
  { unfold et_table_wf. simpl. split; [|split].
    - constructor; [cbn; lia | constructor].
    - constructor; [simpl; tauto | constructor].
    - constructor; [simpl; tauto | constructor]. }
  split; [exact Hwf|].
  pose proof (get_or_create_exercise_test_spec exercise_test_table 2 "def test_two(): pass"%string Hwf)
    as H.
  destruct (get_or_create_exercise_test exercise_test_table 2 "def test_two(): pass"%string).
  apply H.
Defined.

Lemma etn_matches_fields et name r :
  etn_matches et name r = true <-> etn_exercise_test r = et /\ test_name r = name.
Proof.
  unfold etn_matches. rewrite andb_true_iff, Nat.eqb_eq, String.eqb_eq. tauto.
Qed.

Lemma find_map_replace {A : Type} (p : A -> bool) (key : A -> nat) l old new :
  find p l = Some old -> p new = true ->
  find p (map (fun r => if key r =? key old then new else r) l) = Some new.
Proof.
  induction l as [|a l IH]; simpl; intros Hf Hn; [discriminate|].
  destruct (p a) eqn:Ha.
  - injection Hf as ->. rewrite Nat.eqb_refl. now rewrite Hn.
  - destruct (key a =? key old); [now rewrite Hn|]. rewrite Ha. now apply IH.
Qed.

(** X17: [ExerciseTestName.get_exercise_test] fails without an
    ExerciseTest; otherwise it returns the existing row of (test, name)
    unchanged, or adds one whose pretty name is the fatal pretty name for
    the fatal test and the test name otherwise; a second call returns the
    same row and adds nothing. *)
Theorem get_exercise_test_spec ets t exercise name :
  match get_by_exercise ets exercise with
  | None => get_exercise_test ets t exercise name = None
  | Some et =>
      exists t' instance,
        get_exercise_test ets t exercise name = Some (t', instance) /\
        etn_exercise_test instance = et_id et /\ test_name instance = name /\
        get_exercise_test ets t' exercise name = Some (t', instance) /\
        match find (etn_matches (et_id et) name) (exercise_test_names t) with
        | Some old => t' = t /\ instance = old
        | None =>
            exercise_test_names t' = exercise_test_names t ++ [instance] /\
            pretty_test_name instance =
              (if String.eqb name FATAL_TEST_NAME then FATAL_TEST_PRETTY_TEST_NAME else name)
        end
  end.
Proof.
  unfold get_exercise_test.
  destruct (get_by_exercise ets exercise) as [et|]; [|reflexivity].
  unfold etn_get_or_create.
  destruct (find (etn_matches (et_id et) name) (exercise_test_names t)) as [old|] eqn:Hf.
  - destruct (find_some _ _ Hf) as [_ Hm]. apply etn_matches_fields in Hm as [H1 H2].
    exists t, old. rewrite Hf. simpl. repeat split; auto.
  - set (pretty := if String.eqb name FATAL_TEST_NAME
                   then FATAL_TEST_PRETTY_TEST_NAME else name).
    set (inst := mkExerciseTestName (next_etn_id t) (et_id et) name pretty).
    exists (mkExerciseTestNameTable (exercise_test_names t ++ [inst]) (S (next_etn_id t))), inst.
    split; [reflexivity|]. split; [reflexivity|]. split; [reflexivity|].
    split; [|split; reflexivity]. simpl. rewrite find_app, Hf. simpl.
    unfold etn_matches. simpl. now rewrite Nat.eqb_refl, String.eqb_refl.
Qed.

(** X18: after [create_exercise_test_name] sets a pretty name,
    [get_exercise_test] for that exercise and test name returns a row with
    that pretty name and inserts nothing. *)
Theorem create_exercise_test_name_then_get ets t exercise et name pretty :
  get_by_exercise ets exercise = Some et ->
  let t1 := create_exercise_test_name t (et_id et) name pretty in
  exists instance,
    get_exercise_test ets t1 exercise name = Some (t1, instance) /\
    pretty_test_name instance = pretty /\ test_name instance = name /\
    etn_exercise_test instance = et_id et.
Proof.
  intros Hg. cbv zeta. unfold get_exercise_test. rewrite Hg.
  unfold create_exercise_test_name, etn_get_or_create.
  destruct (find (etn_matches (et_id et) name) (exercise_test_names t)) as [old|] eqn:Hf.
  - destruct (find_some _ _ Hf) as [_ Hm]. apply etn_matches_fields in Hm as [H1 H2].
    set (new := mkExerciseTestName (etn_id old) (etn_exercise_test old) (test_name old) pretty).
    exists new. simpl. rewrite (find_map_replace _ etn_id _ old new Hf).
    + subst new. rewrite H1, H2. auto.
    + apply etn_matches_fields. subst new. simpl. auto.
  - eexists. simpl. rewrite find_app, Hf. simpl. unfold etn_matches at 1. simpl.
    rewrite Nat.eqb_refl, String.eqb_refl. simpl. auto.
Qed.

Lemma create_exercise_test_name_then_get_witness :
  get_by_exercise exercise_test_table 1 = Some (mkExerciseTest 0 1 "def test_one(): pass"%string) /\
  exists instance,
    get_exercise_test exercise_test_table
      (create_exercise_test_name (mkExerciseTestNameTable [] 0) 0 "test_one"%string "Test one"%string)
      1 "test_one"%string
    = Some (create_exercise_test_name (mkExerciseTestNameTable [] 0) 0 "test_one"%string "Test one"%string,
            instance) /\
    pretty_test_name instance = "Test one"%string /\ test_name instance = "test_one"%string /\
    etn_exercise_test instance = 0.
Proof.
  split; [reflexivity|].
  exact (create_exercise_test_name_then_get exercise_test_table (mkExerciseTestNameTable [] 0)
           1 (mkExerciseTest 0 1 "def test_one(): pass"%string) "test_one"%string "Test one"%string eq_refl).
Defined.

(** X19: [CommentText.create_comment] returns the row with the given text;
    an existing row is returned with its first flake8 key and the table
    unchanged, a new one is appended with the given key; a second call
    returns the same row and changes nothing. *)
Theorem create_comment_text_spec t text key :
  let '(t1, c) := create_comment_text t text key in
  ct_text c = text /\
  (forall key', create_comment_text t1 text key' = (t1, c)) /\
  match find (fun r => String.eqb (ct_text r) text) (comment_texts t) with
  | Some old => t1 = t /\ c = old
  | None => comment_texts t1 = comment_texts t ++ [c] /\ flake8_key c = key /\
            ct_id c = next_ct_id t
  end.
Proof.
  unfold create_comment_text.
  destruct (find (fun r => String.eqb (ct_text r) text) (comment_texts t)) as [old|] eqn:Hf.
  - destruct (find_some _ _ Hf) as [_ Hm]. apply String.eqb_eq in Hm.
    split; [exact Hm|]. split; [|auto]. intros key'. now rewrite Hf.
  - split; [reflexivity|]. split; [|auto]. intros key'. simpl.
    rewrite find_app, Hf. simpl. now rewrite String.eqb_refl.
Qed.

Lemma comment_matches_fields cm line ct sol auto r :
  comment_matches cm line ct sol auto r = true <->
  commenter r = cm /\ line_number r = line /\ cr_comment r = ct /\ cr_solution r = sol /\
  is_auto r = auto.
Proof.
  unfold comment_matches. rewrite !andb_true_iff, !Nat.eqb_eq.
  destruct (is_auto r), auto; simpl; intuition congruence.
Qed.

(** X20: [Comment.create_comment] returns [(row, created)] for the five
    fields; a new row is appended with the current time, the insert
    failing for line number 0; a repeated call returns the same row with
    [created] false and changes nothing. *)
Theorem create_comment_spec t cm line ct sol auto now :
  match create_comment t cm line ct sol auto now with
  | None => line = 0 /\ find (comment_matches cm line ct sol auto) (comment_rows t) = None
  | Some (t1, (c, created)) =>
      commenter c = cm /\ line_number c = line /\ cr_comment c = ct /\ cr_solution c = sol /\
      is_auto c = auto /\
      (forall now', create_comment t1 cm line ct sol auto now' = Some (t1, (c, false))) /\
      if created then comment_rows t1 = comment_rows t ++ [c] /\ cr_timestamp c = now /\
                      1 <= line
      else t1 = t
  end.
Proof.
  unfold create_comment.
  destruct (find (comment_matches cm line ct sol auto) (comment_rows t)) as [old|] eqn:Hf.
  - destruct (find_some _ _ Hf) as [_ Hm]. apply comment_matches_fields in Hm.
    intuition. now rewrite Hf.
  - destruct (Nat.ltb_spec line 1) as [Hl|Hl]; [split; [lia | reflexivity]|].
    assert (Hm : comment_matches cm line ct sol auto
                   (mkCommentRow (next_cr_id t) cm now line ct sol auto) = true)
      by now apply comment_matches_fields.
    do 5 (split; [reflexivity|]). split; [|auto].
    intros now'. simpl. rewrite find_app, Hf. simpl. now rewrite Hm.
Qed.

Lemma remove_newlines_no_newline s n :
  String.get n (remove_newlines s) <> Some (ascii_of_nat 10).
Proof.
  revert n. induction s as [|a s IH]; intros n; simpl; [destruct n; discriminate|].
  destruct (Ascii.eqb_spec a (ascii_of_nat 10)) as [E|E]; [apply IH|].
  destruct n; simpl; [congruence | apply IH].
Qed.

Lemma concat_no_char (sep : string) (c : ascii) (l : list string) :
  (forall n, String.get n sep <> Some c) ->
  Forall (fun s => forall n, String.get n s <> Some c) l ->
  forall n, String.get n (String.concat sep l) <> Some c.
Proof.
  intros Hsep Hl. assert (Happ : forall s1 s2,
    (forall n, String.get n s1 <> Some c) -> (forall n, String.get n s2 <> Some c) ->
    forall n, String.get n (s1 ++ s2) <> Some c).
  { induction s1 as [|a s1 IH]; simpl; intros s2 H1 H2 n; [apply H2|].
    destruct n; simpl.
    - exact (H1 0).
    - apply IH; [intros m; exact (H1 (S m)) | exact H2]. }
  induction Hl as [|x l Hx Hl IH]; [intros n; destruct n; discriminate|].
  destruct l as [|y l]; simpl; [exact Hx|].
  apply Happ; [exact Hx|]. apply Happ; [exact Hsep | exact IH].
Qed.

(** X21: the user message built from a junit result element never contains
    a newline. *)
Theorem result_message_single_line result n :
  String.get n (result_message result) <> Some (ascii_of_nat 10).
Proof.
  unfold result_message. revert n. apply concat_no_char.
  - intros [|[|n]]; simpl; [discriminate | discriminate | discriminate].
  - apply Forall_forall. intros s Hs. apply in_map_iff in Hs as [x [<- _]].
    apply remove_newlines_no_newline.
Qed.

Lemma flat_map_failing_nil suites :
  existsb has_cases suites = false -> flat_map failing_cases suites = [].
Proof.
  induction suites as [|s suites IH]; simpl; [reflexivity|].
  destruct s; simpl; [exact IH | discriminate].
Qed.

Lemma concat_no_case_texted suites :
  existsb has_cases suites = false -> forallb result_has_text (concat suites) = true.
Proof.
  induction suites as [|suite suites IH]; [reflexivity|].
  simpl. destruct suite; [exact IH | discriminate].
Qed.

Lemma populate_no_case c raw w :
  (raw = None \/ raw = Some JunitEmpty \/
   exists suites, raw = Some (JunitXml suites) /\ existsb has_cases suites = false) ->
  populate_junit_results c raw w =
  Some (tt, mkIngestWorld (executions w ++ [fatal_row c w]) (S (next_execution_id w))
                          (sent w ++ [fatal_notification c])).
Proof.
  intros Hraw.
  assert (Hs : exists suites, existsb has_cases suites = false /\
     populate_junit_results c raw w =
     (fr <- handle_suites c suites 0 false ;;
      let '(number_of_failures, tests_ran) := fr in
      if negb tests_ran then handle_failed_to_execute_tests c
      else if number_of_failures =? 0 then ret tt
      else notifications_send
             (mkSentNotification (solver (checked_solution c)) UNITTEST_ERROR
                                 (fail_message number_of_failures (checked_subject c))
                                 (sol_id (checked_solution c))
                                 (solution_url c))) w).
  { destruct Hraw as [->|[->|[suites [-> Hsu]]]].
    - exists []. split; reflexivity.
    - exists []. split; reflexivity.
    - exists suites. split; [exact Hsu | reflexivity]. }
  destruct Hs as [suites [Hsu ->]].
  destruct (handle_suites_spec c suites 0 false w (concat_no_case_texted suites Hsu))
    as [rows [Heq [Hn _]]].
  rewrite flat_map_failing_nil in Heq, Hn by exact Hsu.
  destruct rows; [|discriminate].
  unfold bind at 1. rewrite Heq, Hsu. simpl.
  rewrite app_nil_r, Nat.add_0_r. reflexivity.
Qed.


(** X23: with no report, an empty report or a report without any test
    case, [_populate_junit_results] writes exactly one fatal_test_failure
    row and sends exactly one notification to the solver. *)
Theorem populate_fatal_branch c raw w :
  (raw = None \/ raw = Some JunitEmpty \/
   exists suites, raw = Some (JunitXml suites) /\ existsb has_cases suites = false) ->
  populate_junit_results c raw w =
  Some (tt, mkIngestWorld (executions w ++ [fatal_row c w]) (S (next_execution_id w))
                          (sent w ++ [fatal_notification c])).
Proof. apply populate_no_case. Qed.

Lemma populate_fatal_branch_witness :
  populate_junit_results checked_example (Some (JunitXml [[]])) world0 =
  Some (tt, mkIngestWorld ([] ++ [fatal_row checked_example world0]) 1
                          ([] ++ [fatal_notification checked_example])).
Proof.
  apply (populate_fatal_branch checked_example (Some (JunitXml [[]])) world0).
  right. right. exists [[]]. split; reflexivity.
Defined.

(** X24: a run of [_populate_junit_results] only appends result rows of
    the checked solution and sends at most one notification, of kind
    UNITTEST_ERROR, to its solver about it. *)
Theorem populate_at_most_one_notification c raw w w' :
  populate_junit_results c raw w = Some (tt, w') ->
  exists rows notes,
    executions w' = executions w ++ rows /\ next_execution_id w' = next_execution_id w + length rows /\
    sent w' = sent w ++ notes /\ length notes <= 1 /\
    Forall (fun x => execution_solution x = sol_id (checked_solution c)) rows /\
    Forall (fun n => sent_user n = solver (checked_solution c) /\
                     sent_kind n = UNITTEST_ERROR /\
                     sent_related_id n = sol_id (checked_solution c)) notes.
Proof.
  destruct raw as [[|suites|text]|].
  - rewrite populate_no_case by auto. intros H. injection H as <-.
    exists [fatal_row c w], [fatal_notification c]. simpl.
    repeat split; try lia; repeat constructor.
  - destruct (forallb result_has_text (concat suites)) eqn:Ht.
    2:{ unfold populate_junit_results, bind. cbn [raw_truthy fromstring_testsuites ret].
        rewrite (handle_suites_untexted c suites 0 false w Ht). discriminate. }
    destruct (handle_suites_spec c suites 0 false w Ht) as [rows [Heq [_ Hsol]]].
    unfold populate_junit_results, bind. cbn [raw_truthy fromstring_testsuites ret].
    rewrite Heq. cbv beta iota. cbn [orb negb].
    destruct (existsb has_cases suites); cbn [negb].
    + destruct (_ =? 0).
      * intros H. injection H as <-. exists rows, []. simpl.
        rewrite app_nil_r. repeat split; auto; lia.
      * intros H. injection H as <-. eexists rows, [_]. simpl.
        repeat split; auto; repeat constructor.
    + intros H. injection H as <-.
      exists (rows ++ [mkTestExecution (next_execution_id w + length rows)
                        (sol_id (checked_solution c)) FATAL_TEST_NAME
                        fail_user_message fail_staff_message]), [fatal_notification c].
      simpl. rewrite <- app_assoc, length_app. simpl.
      repeat split; try lia.
      * apply Forall_app. split; [exact Hsol | repeat constructor].
      * repeat constructor.
  - discriminate.
  - rewrite populate_no_case by auto. intros H. injection H as <-.
    exists [fatal_row c w], [fatal_notification c]. simpl.
    repeat split; try lia; repeat constructor.
Qed.

Lemma populate_at_most_one_notification_witness :
  populate_junit_results checked_example None world0 = Some (tt, fatal_world) /\
  length (sent fatal_world) <= 1.
Proof.
  split; [reflexivity|].
  destruct (populate_at_most_one_notification checked_example None world0 fatal_world
              eq_refl) as [rows [notes [_ [_ [Hs [Hl _]]]]]].
  rewrite Hs. simpl. exact Hl.
Defined.

